(** * AMD CPPC cpufreq driver (amd_cppc.c): shallow embedding and properties

    The driver keeps one [amd_cppc_softc] per core, converts between MHz and
    abstract performance levels, and programs the CPPC request register
    through model specific registers (MSRs).

    C integers are embedded as [Z] with their wrap-around written out:
    - [uint8_t]  : reduction modulo 2^8,
    - [uint64_t] : reduction modulo 2^64,
    - [int]      : 32-bit two's complement.  A conversion of an out-of-range
      value to [int] is implementation-defined in C; the FreeBSD/amd64
      compilers keep the low 32 bits, which is what [to_int] does. *)

From Stdlib Require Import ZArith Lia List Bool.
Import ListNotations.
Local Open Scope Z_scope.

(** ** C integer conversions *)

Definition to_uint8 (x : Z) : Z := x mod 2 ^ 8.
Definition to_uint64 (x : Z) : Z := x mod 2 ^ 64.
Definition to_int (x : Z) : Z := (x + 2 ^ 31) mod 2 ^ 32 - 2 ^ 31.

Definition is_uint8 (x : Z) : Prop := 0 <= x < 2 ^ 8.
Definition is_uint64 (x : Z) : Prop := 0 <= x < 2 ^ 64.
Definition is_int (x : Z) : Prop := - 2 ^ 31 <= x < 2 ^ 31.

Definition INT_MAX : Z := 2 ^ 31 - 1.

(** ** Constants of the driver and of the kernel headers it includes *)

Definition MSR_AMD_CPPC_CAP1 : Z := 0xC00102B0.
Definition MSR_AMD_CPPC_ENABLE : Z := 0xC00102B1.
Definition MSR_AMD_CPPC_REQ : Z := 0xC00102B3.

Definition AMD_CPPC_LOWEST_PERF (x : Z) : Z := Z.land (Z.shiftr x 0) 0xFF.
Definition AMD_CPPC_LOWNONLIN_PERF (x : Z) : Z := Z.land (Z.shiftr x 8) 0xFF.
Definition AMD_CPPC_NOMINAL_PERF (x : Z) : Z := Z.land (Z.shiftr x 16) 0xFF.
Definition AMD_CPPC_HIGHEST_PERF (x : Z) : Z := Z.land (Z.shiftr x 24) 0xFF.

Definition AMD_CPPC_MAX_PERF_SHIFT : Z := 0.
Definition AMD_CPPC_MIN_PERF_SHIFT : Z := 8.
Definition AMD_CPPC_DES_PERF_SHIFT : Z := 16.
Definition AMD_CPPC_EPP_PERF_SHIFT : Z := 24.

Definition AMD_CPPC_REQ_BUILD (max min des epp : Z) : Z :=
  Z.lor (Z.lor (Z.lor
    (to_uint64 (Z.shiftl (to_uint64 epp) AMD_CPPC_EPP_PERF_SHIFT))
    (to_uint64 (Z.shiftl (to_uint64 des) AMD_CPPC_DES_PERF_SHIFT)))
    (to_uint64 (Z.shiftl (to_uint64 min) AMD_CPPC_MIN_PERF_SHIFT)))
    (to_uint64 (Z.shiftl (to_uint64 max) AMD_CPPC_MAX_PERF_SHIFT)).

Definition AMD_CPPC_ENABLE_BIT : Z := Z.shiftl 1 0.
Definition AMD_CPPC_MAX_SETTINGS : Z := 64.

(** From <sys/errno.h> and <sys/cpu.h> of the host kernel. *)
Definition ENXIO : Z := 6.
Definition EINVAL : Z := 22.
Definition CPUFREQ_VAL_UNKNOWN : Z := -1.

(** ** Per-core driver state: [struct amd_cppc_softc] *)

Record amd_cppc_softc : Type := mk_softc {
  dev : Z;
  cpu_id : Z;
  highest_perf : Z;
  nominal_perf : Z;
  lowest_nonlinear_perf : Z;
  lowest_perf : Z;
  req_max_perf : Z;
  req_min_perf : Z;
  req_des_perf : Z;
  req_epp : Z;
  base_freq_mhz : Z;
  epp : Z;
  cppc_enabled : bool
}.

(** Field ranges imposed by the C types of the structure. *)
Record softc_wf (sc : amd_cppc_softc) : Prop := {
  wf_highest : is_uint8 (highest_perf sc);
  wf_nominal : is_uint8 (nominal_perf sc);
  wf_lownl : is_uint8 (lowest_nonlinear_perf sc);
  wf_lowest : is_uint8 (lowest_perf sc);
  wf_req_max : is_uint8 (req_max_perf sc);
  wf_req_min : is_uint8 (req_min_perf sc);
  wf_req_des : is_uint8 (req_des_perf sc);
  wf_req_epp : is_uint8 (req_epp sc);
  wf_base : is_int (base_freq_mhz sc);
  wf_epp : is_int (epp sc)
}.

(** Field assignments [sc->f = v]. *)
Definition set_caps (sc : amd_cppc_softc) (hi nom lnl lo : Z) : amd_cppc_softc :=
  mk_softc (dev sc) (cpu_id sc) hi nom lnl lo
           (req_max_perf sc) (req_min_perf sc) (req_des_perf sc) (req_epp sc)
           (base_freq_mhz sc) (epp sc) (cppc_enabled sc).

Definition set_req_perf (sc : amd_cppc_softc) (max min des : Z) : amd_cppc_softc :=
  mk_softc (dev sc) (cpu_id sc)
           (highest_perf sc) (nominal_perf sc) (lowest_nonlinear_perf sc)
           (lowest_perf sc)
           max min des (req_epp sc)
           (base_freq_mhz sc) (epp sc) (cppc_enabled sc).

Definition set_epp (sc : amd_cppc_softc) (e hw_e : Z) : amd_cppc_softc :=
  mk_softc (dev sc) (cpu_id sc)
           (highest_perf sc) (nominal_perf sc) (lowest_nonlinear_perf sc)
           (lowest_perf sc)
           (req_max_perf sc) (req_min_perf sc) (req_des_perf sc) hw_e
           (base_freq_mhz sc) e (cppc_enabled sc).

Definition set_cppc_enabled (sc : amd_cppc_softc) (b : bool) : amd_cppc_softc :=
  mk_softc (dev sc) (cpu_id sc)
           (highest_perf sc) (nominal_perf sc) (lowest_nonlinear_perf sc)
           (lowest_perf sc)
           (req_max_perf sc) (req_min_perf sc) (req_des_perf sc) (req_epp sc)
           (base_freq_mhz sc) (epp sc) b.

Definition set_identity (sc : amd_cppc_softc) (d cpu base : Z) : amd_cppc_softc :=
  mk_softc d cpu
           (highest_perf sc) (nominal_perf sc) (lowest_nonlinear_perf sc)
           (lowest_perf sc)
           (req_max_perf sc) (req_min_perf sc) (req_des_perf sc) (req_epp sc)
           base (epp sc) (cppc_enabled sc).

(** ** Unit conversions *)

(** [amd_cppc_perf_to_mhz]: [(int)((uint64_t) base_freq_mhz * perf / nominal_perf)]. *)
Definition amd_cppc_perf_to_mhz (sc : amd_cppc_softc) (perf : Z) : Z :=
  if nominal_perf sc =? 0 then 0
  else to_int (to_uint64 (to_uint64 (base_freq_mhz sc) * to_uint64 perf)
               / to_uint64 (nominal_perf sc)).

(** [amd_cppc_mhz_to_perf]: the quotient is narrowed to [int] before the two
    clamping comparisons, and to [uint8_t] on return. *)
Definition amd_cppc_mhz_to_perf (sc : amd_cppc_softc) (mhz : Z) : Z :=
  if base_freq_mhz sc =? 0 then nominal_perf sc
  else
    let perf := to_int (to_uint64 (to_uint64 mhz * to_uint64 (nominal_perf sc))
                        / to_uint64 (base_freq_mhz sc)) in
    let perf := if perf <? lowest_perf sc then lowest_perf sc else perf in
    let perf := if perf >? highest_perf sc then highest_perf sc else perf in
    to_uint8 perf.

(** [amd_cppc_epp_to_hw]: clamp to 0..100, scale to 0..255. *)
Definition amd_cppc_epp_to_hw (epp : Z) : Z :=
  let epp := if epp <? 0 then 0 else epp in
  let epp := if epp >? 100 then 100 else epp in
  to_uint8 (to_int (Z.quot (to_int (epp * 255)) 100)).

(** ** The MSR file of the core

    [rdmsr]/[wrmsr] are primitives of the host; the driver runs them pinned
    to the core of the softc ([amd_cppc_bind_cpu]), so the model has the MSR
    file of that one core.  CAP1 is read-only.  REQ keeps what is written.
    ENABLE keeps what is written when the hardware implements CPPC
    ([enable_latches]); otherwise the write is dropped, which is the failure
    [amd_cppc_enable] looks for when it reads the register back. *)

Record machine : Type := mk_machine {
  msr_cap1 : Z;
  msr_enable : Z;
  msr_req : Z;
  enable_latches : bool
}.

Definition rdmsr (hw : machine) (msr : Z) : Z :=
  if msr =? MSR_AMD_CPPC_CAP1 then msr_cap1 hw
  else if msr =? MSR_AMD_CPPC_ENABLE then msr_enable hw
  else if msr =? MSR_AMD_CPPC_REQ then msr_req hw
  else 0.

Definition wrmsr (hw : machine) (msr val : Z) : machine :=
  if msr =? MSR_AMD_CPPC_REQ then
    mk_machine (msr_cap1 hw) (msr_enable hw) val (enable_latches hw)
  else if msr =? MSR_AMD_CPPC_ENABLE then
    if enable_latches hw
    then mk_machine (msr_cap1 hw) val (msr_req hw) (enable_latches hw)
    else hw
  else hw.

(** Computations that access the MSR file. *)
Definition msr_m (A : Type) : Type := machine -> A * machine.

Definition ret {A : Type} (a : A) : msr_m A := fun hw => (a, hw).

Definition bind {A B : Type} (m : msr_m A) (k : A -> msr_m B) : msr_m B :=
  fun hw => let (a, hw') := m hw in k a hw'.

Notation "x <- m ;; k" := (bind m (fun x => k))
  (at level 61, m at next level, right associativity).
Notation "m ;;; k" := (bind m (fun _ => k))
  (at level 61, right associativity).

Definition amd_cppc_rdmsr (sc : amd_cppc_softc) (msr : Z) : msr_m Z :=
  fun hw => (rdmsr hw msr, hw).

Definition amd_cppc_wrmsr (sc : amd_cppc_softc) (msr val : Z) : msr_m unit :=
  fun hw => (tt, wrmsr hw msr val).

(** ** Request register and enable bit *)

Definition amd_cppc_write_req (sc : amd_cppc_softc) : msr_m unit :=
  let val := AMD_CPPC_REQ_BUILD (req_max_perf sc) (req_min_perf sc)
                                (req_des_perf sc) (req_epp sc) in
  amd_cppc_wrmsr sc MSR_AMD_CPPC_REQ val.

Definition amd_cppc_enable (sc : amd_cppc_softc) : msr_m (Z * amd_cppc_softc) :=
  val <- amd_cppc_rdmsr sc MSR_AMD_CPPC_ENABLE ;;
  if Z.land val AMD_CPPC_ENABLE_BIT =? 0 then
    amd_cppc_wrmsr sc MSR_AMD_CPPC_ENABLE (Z.lor val AMD_CPPC_ENABLE_BIT) ;;;
    val <- amd_cppc_rdmsr sc MSR_AMD_CPPC_ENABLE ;;
    if Z.land val AMD_CPPC_ENABLE_BIT =? 0
    then ret (ENXIO, sc)
    else ret (0, set_cppc_enabled sc true)
  else ret (0, set_cppc_enabled sc true).

Definition amd_cppc_disable (sc : amd_cppc_softc) : msr_m amd_cppc_softc :=
  if negb (cppc_enabled sc) then ret sc
  else
    amd_cppc_wrmsr sc MSR_AMD_CPPC_REQ 0 ;;;
    val <- amd_cppc_rdmsr sc MSR_AMD_CPPC_ENABLE ;;
    amd_cppc_wrmsr sc MSR_AMD_CPPC_ENABLE
      (Z.land val (to_uint64 (Z.lnot AMD_CPPC_ENABLE_BIT))) ;;;
    ret (set_cppc_enabled sc false).

(** ** Capability reader *)

Definition amd_cppc_read_caps (sc : amd_cppc_softc) : msr_m (Z * amd_cppc_softc) :=
  cap1 <- amd_cppc_rdmsr sc MSR_AMD_CPPC_CAP1 ;;
  let sc := set_caps sc (to_uint8 (AMD_CPPC_HIGHEST_PERF cap1))
                        (to_uint8 (AMD_CPPC_NOMINAL_PERF cap1))
                        (to_uint8 (AMD_CPPC_LOWNONLIN_PERF cap1))
                        (to_uint8 (AMD_CPPC_LOWEST_PERF cap1)) in
  if (highest_perf sc =? 0) || (nominal_perf sc =? 0) || (lowest_perf sc =? 0)
  then ret (ENXIO, sc)
  else if (lowest_perf sc >? nominal_perf sc) ||
          (nominal_perf sc >? highest_perf sc)
  then ret (ENXIO, sc)
  else ret (0, sc).

(** ** The EPP sysctl handler

    [sysctl_handle_int] belongs to the host: it reports the current value
    and, when the request carries a new value and no copy failed, stores the
    new value in the local [epp]. *)

Record sysctl_req : Type := mk_sysctl_req {
  newptr : option Z;
  copy_error : Z
}.

Definition sysctl_handle_int (cur : Z) (req : sysctl_req) : Z * Z :=
  if copy_error req =? 0 then
    match newptr req with
    | Some v => (0, v)
    | None => (0, cur)
    end
  else (copy_error req, cur).

Definition amd_cppc_sysctl_epp (sc : amd_cppc_softc) (req : sysctl_req)
  : msr_m (Z * amd_cppc_softc) :=
  let epp0 := epp sc in
  let (error, epp1) := sysctl_handle_int epp0 req in
  if negb (error =? 0) || (match newptr req with None => true | Some _ => false end)
  then ret (error, sc)
  else if (epp1 <? 0) || (epp1 >? 100) then ret (EINVAL, sc)
  else
    let sc := set_epp sc epp1 (amd_cppc_epp_to_hw epp1) in
    (if cppc_enabled sc then amd_cppc_write_req sc else ret tt) ;;;
    ret (0, sc).

(** A write of the preference: the handler called with a new value. *)
Definition set_preference (sc : amd_cppc_softc) (e : Z) : msr_m (Z * amd_cppc_softc) :=
  amd_cppc_sysctl_epp sc (mk_sysctl_req (Some e) 0).

(** ** Device methods *)

(** [tsc_freq] and the unit of the parent device come from the host, and so
    does the result of [cpufreq_register]. *)
Definition amd_cppc_attach (sc : amd_cppc_softc) (d unit tsc_freq registered : Z)
  : msr_m (Z * amd_cppc_softc) :=
  let sc := set_identity sc d unit (to_int (tsc_freq / 1000000)) in
  if base_freq_mhz sc =? 0 then ret (ENXIO, sc)
  else
    r <- amd_cppc_read_caps sc ;;
    let (error, sc) := r in
    if negb (error =? 0) then ret (error, sc)
    else
      let sc := set_epp sc 50 (amd_cppc_epp_to_hw 50) in
      let sc := set_req_perf sc (highest_perf sc) (lowest_perf sc) 0 in
      r <- amd_cppc_enable sc ;;
      let (error, sc) := r in
      if negb (error =? 0) then ret (error, sc)
      else
        amd_cppc_write_req sc ;;;
        ret (registered, sc).

(** [cpufreq_unregister] belongs to the host; [unregistered] is its result. *)
Definition amd_cppc_detach (sc : amd_cppc_softc) (unregistered : Z)
  : msr_m (Z * amd_cppc_softc) :=
  sc <- amd_cppc_disable sc ;;
  ret (unregistered, sc).

Definition amd_cppc_suspend (sc : amd_cppc_softc) : msr_m (Z * amd_cppc_softc) :=
  sc <- amd_cppc_disable sc ;;
  ret (0, sc).

Definition amd_cppc_resume (sc : amd_cppc_softc) : msr_m (Z * amd_cppc_softc) :=
  r <- amd_cppc_read_caps sc ;;
  let (error, sc) := r in
  if negb (error =? 0) then ret (error, sc)
  else
    r <- amd_cppc_enable sc ;;
    let (error, sc) := r in
    if negb (error =? 0) then ret (error, sc)
    else
      amd_cppc_write_req sc ;;;
      ret (0, sc).

(** ** cpufreq driver interface *)

(** [struct cf_setting] of <sys/cpu.h>, without its spare words, which the
    driver only zeroes. *)
Record cf_setting : Type := mk_cf_setting {
  freq : Z;
  volts : Z;
  power : Z;
  lat : Z;
  cf_dev : Z
}.

(** The setting stored in [sets[n]] for a performance level: the entry is
    zeroed, then its five fields are assigned. *)
Definition settings_entry (sc : amd_cppc_softc) (d perf : Z) : cf_setting :=
  mk_cf_setting (amd_cppc_perf_to_mhz sc perf)
                CPUFREQ_VAL_UNKNOWN CPUFREQ_VAL_UNKNOWN 1 d.

(** The [for] loop of [amd_cppc_settings].  [sets] holds [sets[0..n-1]].
    Every iteration lowers [perf] by [step >= 1], so [perf - lowest_perf]
    iterations are enough; see [settings_loop_fuel]. *)
Fixpoint settings_loop (fuel : nat) (sc : amd_cppc_softc) (d count step : Z)
    (perf n : Z) (sets : list cf_setting) : Z * list cf_setting :=
  match fuel with
  | O => (n, sets)
  | S fuel' =>
      if perf >? lowest_perf sc then
        if (n >=? count) || (n >=? AMD_CPPC_MAX_SETTINGS) then (n, sets)
        else settings_loop fuel' sc d count step (perf - step) (n + 1)
                           (sets ++ [settings_entry sc d (to_uint8 perf)])
      else (n, sets)
  end.

(** Step between two entries: [perf_range / 30], at least 1. *)
Definition settings_step (perf_range : Z) : Z :=
  let step := Z.quot perf_range 30 in
  if step <? 1 then 1 else step.

(** Result: the error code, the entries written to [sets], and [*count]. *)
Definition amd_cppc_settings (sc : amd_cppc_softc) (d count : Z)
  : Z * list cf_setting * Z :=
  if negb (cppc_enabled sc) then (ENXIO, [], count)
  else
    let perf_range := highest_perf sc - lowest_perf sc in
    if perf_range <=? 0 then (0, [], 0)
    else
      let step := settings_step perf_range in
      let (n, sets) :=
        settings_loop (Z.to_nat perf_range) sc d count step
                      (highest_perf sc) 0 [] in
      if (n <? count) && (n <? AMD_CPPC_MAX_SETTINGS)
      then (0, sets ++ [settings_entry sc d (lowest_perf sc)], n + 1)
      else (0, sets, n).

Definition amd_cppc_set (sc : amd_cppc_softc) (cf : cf_setting)
  : msr_m (Z * amd_cppc_softc) :=
  if negb (cppc_enabled sc) then ret (ENXIO, sc)
  else
    let target_perf := amd_cppc_mhz_to_perf sc (freq cf) in
    let sc := set_req_perf sc target_perf (lowest_perf sc) 0 in
    amd_cppc_write_req sc ;;;
    ret (0, sc).

(** Result: the error code and the contents of [*cf]. *)
Definition amd_cppc_get (sc : amd_cppc_softc) (d : Z) (cf : cf_setting)
  : Z * cf_setting :=
  if negb (cppc_enabled sc) then (ENXIO, cf)
  else (0, mk_cf_setting (amd_cppc_perf_to_mhz sc (req_max_perf sc))
                         CPUFREQ_VAL_UNKNOWN CPUFREQ_VAL_UNKNOWN
                         CPUFREQ_VAL_UNKNOWN d).

(** ** Notions used in the statements *)

(** What [amd_cppc_read_caps] accepts. *)
Definition caps_valid (sc : amd_cppc_softc) : Prop :=
  highest_perf sc <> 0 /\ nominal_perf sc <> 0 /\ lowest_perf sc <> 0 /\
  lowest_perf sc <= nominal_perf sc <= highest_perf sc.

(** The softc after the four assignments of [amd_cppc_read_caps], and the
    error code that the two checks give for it. *)
Definition caps_stored (sc : amd_cppc_softc) (cap1 : Z) : amd_cppc_softc :=
  set_caps sc (AMD_CPPC_HIGHEST_PERF cap1) (AMD_CPPC_NOMINAL_PERF cap1)
              (AMD_CPPC_LOWNONLIN_PERF cap1) (AMD_CPPC_LOWEST_PERF cap1).

Definition caps_error (sc : amd_cppc_softc) : Z :=
  if (highest_perf sc =? 0) || (nominal_perf sc =? 0) || (lowest_perf sc =? 0)
  then ENXIO
  else if (lowest_perf sc >? nominal_perf sc) ||
          (nominal_perf sc >? highest_perf sc)
  then ENXIO else 0.

(** Clamping as [amd_cppc_mhz_to_perf] does it: lower bound first. *)
Definition clamp (lo hi x : Z) : Z := Z.min hi (Z.max lo x).

(** MHz spanned by one performance level: [base_freq_mhz / nominal_perf],
    rounded up, which is the largest distance between the frequencies of
    two neighbouring levels. *)
Definition mhz_per_level (sc : amd_cppc_softc) : Z :=
  (base_freq_mhz sc + nominal_perf sc - 1) / nominal_perf sc.

(** Each entry is strictly above the next one. *)
Fixpoint strictly_descending (l : list Z) : Prop :=
  match l with
  | a :: (b :: _) as t => a > b /\ strictly_descending t
  | _ => True
  end.

(** The performance levels that the loop of [amd_cppc_settings] visits;
    [settings_loop_perfs] relates the two. *)
Fixpoint loop_perfs (fuel : nat) (lowest count step perf n : Z) : list Z :=
  match fuel with
  | O => []
  | S fuel' =>
      if perf >? lowest then
        if (n >=? count) || (n >=? AMD_CPPC_MAX_SETTINGS) then []
        else perf :: loop_perfs fuel' lowest count step (perf - step) (n + 1)
      else []
  end.

(** ** Reference scenario *)

(** Capabilities lowest 20, lowest-nonlinear 40, nominal 100, highest 180. *)
Definition cap1_ref : Z := 0xB4642814.

(** Capabilities 180/100/10/20: the lowest-nonlinear level is below the
    lowest level. *)
Definition cap1_bad_nonlinear : Z := 0xB4640A14.

Definition hw_ref : machine := mk_machine cap1_ref 0 0 true.

Definition sc_zero : amd_cppc_softc :=
  mk_softc 0 0 0 0 0 0 0 0 0 0 0 0 false.

(** The softc and the MSR file that attach leaves on the reference hardware
    with a 2000 MHz time stamp counter; see [attach_ref]. *)
Definition sc_ref : amd_cppc_softc :=
  mk_softc 7 0 180 100 40 20 180 20 0 127 2000 50 true.

Definition hw_attached : machine := mk_machine cap1_ref 1 0x7F0014B4 true.

(** The reference capabilities with a 1000 MHz anchor. *)
Definition sc_1000 : amd_cppc_softc :=
  mk_softc 7 0 180 100 40 20 180 20 0 127 1000 50 true.

Definition cf_of_mhz (mhz : Z) : cf_setting :=
  mk_cf_setting mhz CPUFREQ_VAL_UNKNOWN CPUFREQ_VAL_UNKNOWN CPUFREQ_VAL_UNKNOWN 7.



(** ** Driver operations and the states they reach *)

(** What can happen to an attached device: the calls that change the softc
    or the MSR file, and two moves of the platform.  Firmware may replace
    the capability register at any time ([amd_cppc_resume] re-reads it for
    that reason); across a suspend the platform may replace the whole MSR
    file, the enable bit and its behaviour included. *)
Inductive driver_op : Type :=
| OpSet (cf : cf_setting)
| OpSysctl (req : sysctl_req)
| OpSuspend
| OpResume
| OpFirmware (cap1 : Z)
| OpReset (hw' : machine).

Definition run_op (o : driver_op) (st : amd_cppc_softc * machine)
  : amd_cppc_softc * machine :=
  let (sc, hw) := st in
  match o with
  | OpSet cf => let '(_, sc', hw') := amd_cppc_set sc cf hw in (sc', hw')
  | OpSysctl req => let '(_, sc', hw') := amd_cppc_sysctl_epp sc req hw in (sc', hw')
  | OpSuspend => let '(_, sc', hw') := amd_cppc_suspend sc hw in (sc', hw')
  | OpResume => let '(_, sc', hw') := amd_cppc_resume sc hw in (sc', hw')
  | OpFirmware cap1 =>
      (sc, mk_machine cap1 (msr_enable hw) (msr_req hw) (enable_latches hw))
  | OpReset hw' => if cppc_enabled sc then (sc, hw) else (sc, hw')
  end.

(** The calls of the driver, as opposed to the moves of the platform. *)
Definition is_call (o : driver_op) : bool :=
  match o with
  | OpFirmware _ | OpReset _ => false
  | _ => true
  end.

Definition calls_only (ops : list driver_op) : Prop :=
  Forall (fun o => is_call o = true) ops.

Definition run_ops (ops : list driver_op) (st : amd_cppc_softc * machine)
  : amd_cppc_softc * machine :=
  fold_left (fun st o => run_op o st) ops st.

(** What holds of the softc and the MSR file whatever the platform does. *)
Record driver_consistent (sc : amd_cppc_softc) (hw : machine) : Prop := {
  con_wf : softc_wf sc;
  con_base : base_freq_mhz sc <> 0;
  con_des : req_des_perf sc = 0;
  con_epp : 0 <= epp sc <= 100;
  con_req_epp : req_epp sc = amd_cppc_epp_to_hw (epp sc);
  con_on :
    cppc_enabled sc = true ->
    Z.land (msr_enable hw) AMD_CPPC_ENABLE_BIT <> 0 /\
    msr_req hw = AMD_CPPC_REQ_BUILD (req_max_perf sc) (req_min_perf sc)
                                    (req_des_perf sc) (req_epp sc)
}.

(** What holds of the softc and the MSR file between two calls as long as
    the platform leaves the MSR file alone. *)
Record driver_inv (sc : amd_cppc_softc) (hw : machine) : Prop := {
  inv_wf : softc_wf sc;
  inv_caps : caps_valid sc;
  inv_cap1 :
    (highest_perf sc, nominal_perf sc, lowest_nonlinear_perf sc, lowest_perf sc) =
    (AMD_CPPC_HIGHEST_PERF (msr_cap1 hw), AMD_CPPC_NOMINAL_PERF (msr_cap1 hw),
     AMD_CPPC_LOWNONLIN_PERF (msr_cap1 hw), AMD_CPPC_LOWEST_PERF (msr_cap1 hw));
  inv_base : base_freq_mhz sc <> 0;
  inv_min : req_min_perf sc = lowest_perf sc;
  inv_max : lowest_perf sc <= req_max_perf sc <= highest_perf sc;
  inv_des : req_des_perf sc = 0;
  inv_epp : 0 <= epp sc <= 100;
  inv_req_epp : req_epp sc = amd_cppc_epp_to_hw (epp sc);
  inv_can_enable :
    Z.land (msr_enable hw) AMD_CPPC_ENABLE_BIT <> 0 \/ enable_latches hw = true;
  inv_on :
    cppc_enabled sc = true ->
    Z.land (msr_enable hw) AMD_CPPC_ENABLE_BIT <> 0 /\
    msr_req hw = AMD_CPPC_REQ_BUILD (req_max_perf sc) (req_min_perf sc)
                                    (req_des_perf sc) (req_epp sc);
  inv_off : cppc_enabled sc = false -> msr_req hw = 0
}.

(** A capability value with the four bytes given and [upper] in bits 32-63. *)
Definition cap1_pack (lo lnl nom hi upper : Z) : Z :=
  lo + lnl * 2 ^ 8 + nom * 2 ^ 16 + hi * 2 ^ 24 + upper * 2 ^ 32.

(** Each entry is related to the next one. *)
Fixpoint chain (R : Z -> Z -> Prop) (l : list Z) : Prop :=
  match l with
  | a :: (b :: _) as t => R a b /\ chain R t
  | _ => True
  end.

(** Each entry is at least the next one. *)
Definition descending (l : list Z) : Prop := chain Z.ge l.

(** The reference capability value with the highest level lowered to 150,
    and one with nominal level 0. *)
Definition cap1_lowered : Z := 0x96642814.
Definition cap1_no_nominal : Z := 0xB4002814.

(** Capabilities 5/3/1/1 with a 1000 MHz anchor: 333 MHz per level. *)
Definition sc_thirds : amd_cppc_softc :=
  mk_softc 7 0 5 3 1 1 5 1 0 127 1000 50 true.

(** ** Softcs at the edges of the C types *)

(** Capabilities 3/1/1/1 with a negative anchor. *)
Definition sc_neg_anchor : amd_cppc_softc :=
  mk_softc 7 0 3 1 1 1 3 1 0 127 (-1073741823) 50 true.

(** Capabilities 2/1/1/1 with the largest anchor an [int] holds. *)
Definition sc_wrap : amd_cppc_softc :=
  mk_softc 7 0 2 1 1 1 2 1 0 127 2147483647 50 true.


(** The reference capabilities with anchors 1 and -1. *)
Definition sc_slow : amd_cppc_softc :=
  mk_softc 7 0 180 100 40 20 180 20 0 127 1 50 true.

Definition sc_neg_one : amd_cppc_softc :=
  mk_softc 7 0 180 100 40 20 180 20 0 127 (-1) 50 true.

(** Capabilities that [amd_cppc_read_caps] rejects: nominal level 0, and
    lowest level above the highest one. *)
Definition sc_nominal0 : amd_cppc_softc :=
  mk_softc 7 0 180 0 40 20 180 20 0 127 2000 50 true.

Definition sc_inverted : amd_cppc_softc :=
  mk_softc 7 0 20 100 40 180 20 180 0 127 2000 50 true.

(** * Properties *)

(** ** Integer conversions *)

Lemma to_int_small x : is_int x -> to_int x = x.
Proof.
  unfold is_int, to_int. intros H.
  rewrite Z.mod_small; lia.
Qed.

Lemma to_int_range x : is_int (to_int x).
Proof.
  unfold is_int, to_int.
  pose proof (Z.mod_pos_bound (x + 2 ^ 31) (2 ^ 32) ltac:(lia)). lia.
Qed.

Lemma to_int_le x : 0 <= x -> to_int x <= x.
Proof.
  intros H. destruct (Z_lt_le_dec x (2 ^ 31)) as [Hlt | Hge].
  - rewrite to_int_small; unfold is_int; lia.
  - pose proof (to_int_range x) as R. unfold is_int in R. lia.
Qed.

Lemma to_uint64_small x : is_uint64 x -> to_uint64 x = x.
Proof. unfold is_uint64, to_uint64. intros H. apply Z.mod_small; lia. Qed.

Lemma to_uint8_small x : is_uint8 x -> to_uint8 x = x.
Proof. unfold is_uint8, to_uint8. intros H. apply Z.mod_small; lia. Qed.

Lemma to_uint64_neg x : - 2 ^ 64 <= x < 0 -> to_uint64 x = x + 2 ^ 64.
Proof.
  unfold to_uint64. intros H.
  rewrite <- (Z_mod_plus_full x 1 (2 ^ 64)).
  apply Z.mod_small. lia.
Qed.

Lemma uint8_is_uint64 x : is_uint8 x -> is_uint64 x.
Proof. unfold is_uint8, is_uint64. lia. Qed.

(** Euclidean division by a positive number, in the form [nia] can use. *)
Lemma div_bounds a n : 0 < n -> n * (a / n) <= a < n * (a / n) + n.
Proof.
  intros Hn. pose proof (Z.div_mod a n ltac:(lia)).
  pose proof (Z.mod_pos_bound a n Hn). lia.
Qed.

Ltac unfold_ranges :=
  unfold is_uint8, is_uint64, is_int, INT_MAX in *.

(** ** Unit converter *)

Section Converter.

Variable sc : amd_cppc_softc.
Hypothesis Hwf : softc_wf sc.

Let b := base_freq_mhz sc.
Let nom := nominal_perf sc.
Let lo := lowest_perf sc.
Let hi := highest_perf sc.

(** Without wrap-around [amd_cppc_perf_to_mhz] is the plain quotient. *)
Lemma perf_to_mhz_exact perf :
  is_uint8 perf -> nom <> 0 -> 0 <= b -> b * perf / nom <= INT_MAX ->
  amd_cppc_perf_to_mhz sc perf = b * perf / nom.
Proof.
  intros Hp Hn Hb Hfit. destruct Hwf. subst b nom. unfold_ranges.
  unfold amd_cppc_perf_to_mhz.
  destruct (Z.eqb_spec (nominal_perf sc) 0) as [E | _]; [contradiction |].
  rewrite (to_uint64_small (base_freq_mhz sc)) by (unfold is_uint64; lia).
  rewrite (to_uint64_small perf) by (unfold is_uint64; lia).
  rewrite (to_uint64_small (nominal_perf sc)) by (unfold is_uint64; lia).
  rewrite to_uint64_small by (unfold is_uint64; nia).
  apply to_int_small. unfold is_int.
  pose proof (Z.div_pos (base_freq_mhz sc * perf) (nominal_perf sc)
                ltac:(nia) ltac:(lia)). lia.
Qed.

(** For a positive anchor the quotient is computed without wrap-around in
    64 bits; only the final narrowing to [int] can wrap. *)
Lemma perf_to_mhz_pos perf :
  is_uint8 perf -> nom <> 0 -> 0 <= b ->
  amd_cppc_perf_to_mhz sc perf = to_int (b * perf / nom).
Proof.
  intros Hp Hn Hb. destruct Hwf. subst b nom. unfold_ranges.
  unfold amd_cppc_perf_to_mhz.
  destruct (Z.eqb_spec (nominal_perf sc) 0) as [E | _]; [contradiction |].
  rewrite (to_uint64_small (base_freq_mhz sc)) by (unfold is_uint64; lia).
  rewrite (to_uint64_small perf) by (unfold is_uint64; lia).
  rewrite (to_uint64_small (nominal_perf sc)) by (unfold is_uint64; lia).
  rewrite to_uint64_small by (unfold is_uint64; nia).
  reflexivity.
Qed.

(** [amd_cppc_mhz_to_perf] clamps the quotient as narrowed to [int]; the
    narrowing to [uint8_t] on return never changes the clamped value. *)
Lemma mhz_to_perf_clamp mhz :
  b <> 0 ->
  amd_cppc_mhz_to_perf sc mhz =
  clamp lo hi (to_int (to_uint64 (to_uint64 mhz * to_uint64 nom) / to_uint64 b)).
Proof.
  intros Hb. destruct Hwf. subst b nom lo hi. unfold_ranges.
  unfold amd_cppc_mhz_to_perf, clamp.
  destruct (Z.eqb_spec (base_freq_mhz sc) 0) as [E | _]; [contradiction |].
  match goal with |- context [to_int ?e] => set (q := to_int e) end.
  destruct (Z.ltb_spec q (lowest_perf sc));
    [destruct (Z.gtb_spec (lowest_perf sc) (highest_perf sc))
    | destruct (Z.gtb_spec q (highest_perf sc))];
    rewrite to_uint8_small by (unfold is_uint8; lia); lia.
Qed.

(** For a non-negative frequency and a positive anchor the quotient is the
    plain one, as long as it fits an [int]. *)
Lemma mhz_to_perf_exact mhz :
  0 <= mhz <= INT_MAX -> 0 < b -> mhz * nom / b <= INT_MAX ->
  amd_cppc_mhz_to_perf sc mhz = clamp lo hi (mhz * nom / b).
Proof.
  intros Hm Hb Hfit. rewrite mhz_to_perf_clamp by lia.
  destruct Hwf. subst b nom lo hi. unfold_ranges.
  rewrite (to_uint64_small mhz) by (unfold is_uint64; lia).
  rewrite (to_uint64_small (nominal_perf sc)) by (unfold is_uint64; lia).
  rewrite (to_uint64_small (base_freq_mhz sc)) by (unfold is_uint64; lia).
  rewrite to_uint64_small by (unfold is_uint64; nia).
  pose proof (Z.div_pos (mhz * nominal_perf sc) (base_freq_mhz sc)
                ltac:(nia) ltac:(lia)) as Hq.
  rewrite to_int_small by (unfold is_int; lia).
  reflexivity.
Qed.

(** The result of [amd_cppc_mhz_to_perf] lies between the two bounds,
    whatever the frequency. *)
Lemma mhz_to_perf_range mhz :
  b <> 0 -> lo <= hi -> lo <= amd_cppc_mhz_to_perf sc mhz <= hi.
Proof.
  intros Hb Hle. rewrite mhz_to_perf_clamp by assumption.
  unfold clamp. lia.
Qed.

End Converter.

Lemma sc_ref_wf : softc_wf sc_ref.
Proof. constructor; unfold_ranges; simpl; lia. Qed.

Lemma sc_ref_valid : caps_valid sc_ref.
Proof. unfold caps_valid; simpl; lia. Qed.




(** C9: epp_to_hw clamps its argument to 0..100 and returns epp * 255 / 100
    truncated; it maps 0 to 0 and 100 to 255 and is non-decreasing. *)
Theorem epp_to_hw_spec :
  (forall e : Z, amd_cppc_epp_to_hw e = clamp 0 100 e * 255 / 100) /\
  amd_cppc_epp_to_hw 0 = 0 /\
  amd_cppc_epp_to_hw 100 = 255 /\
  (forall e1 e2 : Z, 0 <= e1 <= e2 -> e2 <= 100 ->
     amd_cppc_epp_to_hw e1 <= amd_cppc_epp_to_hw e2).
Proof.
  assert (F : forall e, amd_cppc_epp_to_hw e = clamp 0 100 e * 255 / 100).
  { intros e. unfold amd_cppc_epp_to_hw, clamp.
    assert (Hc : 0 <= Z.min 100 (Z.max 0 e) <= 100) by lia.
    replace (if (if e <? 0 then 0 else e) >? 100 then 100
             else if e <? 0 then 0 else e)
      with (Z.min 100 (Z.max 0 e))
      by (destruct (Z.ltb_spec e 0);
          [destruct (Z.gtb_spec 0 100) | destruct (Z.gtb_spec e 100)]; lia).
    set (c := Z.min 100 (Z.max 0 e)) in *.
    rewrite (to_int_small (c * 255)) by (unfold is_int; lia).
    rewrite Z.quot_div_nonneg by lia.
    pose proof (div_bounds (c * 255) 100 ltac:(lia)).
    rewrite to_int_small by (unfold is_int; lia).
    apply to_uint8_small. unfold is_uint8. lia. }
  split; [exact F |]. split; [reflexivity |]. split; [reflexivity |].
  intros e1 e2 H1 H2. rewrite !F. unfold clamp.
  apply Z.div_le_mono; lia.
Qed.

Lemma epp_to_hw_spec_witness :
  0 <= 25 <= 75 /\ 75 <= 100 /\
  amd_cppc_epp_to_hw 25 <= amd_cppc_epp_to_hw 75.
Proof.
  assert (H1 : 0 <= 25 <= 75) by lia.
  assert (H2 : 75 <= 100) by lia.
  split; [exact H1 |]. split; [exact H2 |].
  exact (proj2 (proj2 (proj2 epp_to_hw_spec)) 25 75 H1 H2).
Defined.

Lemma sc_1000_wf : softc_wf sc_1000.
Proof. constructor; unfold_ranges; simpl; lia. Qed.

(** C8, as stated, fails where a C conversion wraps and for capabilities
    that are not ordered.
    - A negative frequency: with anchor 1000, -1 MHz is below the floor
      (200 MHz) yet gives the highest level, not the clamped quotient.
    - A quotient beyond an int: with anchor 1, 2147483647 MHz is above the
      ceiling (1 MHz) yet gives the lowest level, not the clamped quotient.
    - A ceiling beyond an int: with anchor 2147483647 and nominal level 1
      the ceiling wraps to -2 MHz; 5 MHz is above it and gives the lowest
      level.
    - A negative anchor: with anchor -1, 5 MHz is above the ceiling and
      gives the lowest level.
    - Nominal level 0: the ceiling is 0 MHz; 5 MHz gives the lowest level.
    - Lowest level above the highest: 100 MHz is below the floor and gives
      the highest level. *)
Lemma mhz_to_perf_formula_fails :
  (-1 < amd_cppc_perf_to_mhz sc_1000 (lowest_perf sc_1000) /\
   amd_cppc_mhz_to_perf sc_1000 (-1) <> lowest_perf sc_1000 /\
   amd_cppc_mhz_to_perf sc_1000 (-1) <>
     clamp (lowest_perf sc_1000) (highest_perf sc_1000)
           (Z.quot (-1 * nominal_perf sc_1000) (base_freq_mhz sc_1000))) /\
  (2147483647 > amd_cppc_perf_to_mhz sc_slow (highest_perf sc_slow) /\
   amd_cppc_mhz_to_perf sc_slow 2147483647 <> highest_perf sc_slow /\
   amd_cppc_mhz_to_perf sc_slow 2147483647 <>
     clamp (lowest_perf sc_slow) (highest_perf sc_slow)
           (Z.quot (2147483647 * nominal_perf sc_slow) (base_freq_mhz sc_slow))) /\
  (5 > amd_cppc_perf_to_mhz sc_wrap (highest_perf sc_wrap) /\
   amd_cppc_mhz_to_perf sc_wrap 5 <> highest_perf sc_wrap) /\
  (5 > amd_cppc_perf_to_mhz sc_neg_one (highest_perf sc_neg_one) /\
   amd_cppc_mhz_to_perf sc_neg_one 5 <> highest_perf sc_neg_one) /\
  (5 > amd_cppc_perf_to_mhz sc_nominal0 (highest_perf sc_nominal0) /\
   amd_cppc_mhz_to_perf sc_nominal0 5 <> highest_perf sc_nominal0) /\
  (100 < amd_cppc_perf_to_mhz sc_inverted (lowest_perf sc_inverted) /\
   amd_cppc_mhz_to_perf sc_inverted 100 <> lowest_perf sc_inverted).
Proof. vm_compute. repeat split; discriminate. Qed.

(** With a negative anchor and a non-negative frequency the 64-bit
    quotient is 0. *)
Lemma negative_anchor_quotient sc mhz :
  softc_wf sc -> base_freq_mhz sc < 0 -> 0 <= mhz <= INT_MAX ->
  to_int (to_uint64 (to_uint64 mhz * to_uint64 (nominal_perf sc))
          / to_uint64 (base_freq_mhz sc)) = 0 /\
  Z.quot (mhz * nominal_perf sc) (base_freq_mhz sc) <= 0.
Proof.
  intros Hwf Hb Hm. destruct Hwf. unfold_ranges.
  rewrite (to_uint64_small mhz) by (unfold is_uint64; lia).
  rewrite (to_uint64_small (nominal_perf sc)) by (unfold is_uint64; lia).
  rewrite to_uint64_small by (unfold is_uint64; nia).
  rewrite (to_uint64_neg (base_freq_mhz sc)) by lia.
  split.
  - rewrite Z.div_small by nia. reflexivity.
  - replace (base_freq_mhz sc) with (- (- base_freq_mhz sc)) by lia.
    rewrite Z.quot_opp_r by lia.
    rewrite Z.quot_div_nonneg by nia.
    pose proof (div_bounds (mhz * nominal_perf sc) (- base_freq_mhz sc)
                  ltac:(lia)). nia.
Qed.

(** C8 (amended): mhz_to_perf returns nominal_perf when base_freq_mhz is 0.
    For a nonzero anchor and a non-negative mhz whose quotient fits an int
    it is mhz * nominal_perf / base_freq_mhz, truncated and clamped into
    [lowest_perf, highest_perf].  For such an mhz: below the floor
    frequency the result is lowest_perf, provided lowest_perf <=
    highest_perf; above the ceiling frequency the result is highest_perf,
    provided the anchor is positive, nominal_perf is not 0 and the ceiling
    base_freq_mhz * highest_perf / nominal_perf fits an int. *)
Theorem mhz_to_perf_formula (sc : amd_cppc_softc) (mhz : Z) :
  softc_wf sc ->
  (base_freq_mhz sc = 0 -> amd_cppc_mhz_to_perf sc mhz = nominal_perf sc) /\
  (base_freq_mhz sc <> 0 -> 0 <= mhz <= INT_MAX ->
   Z.quot (mhz * nominal_perf sc) (base_freq_mhz sc) <= INT_MAX ->
   amd_cppc_mhz_to_perf sc mhz =
     clamp (lowest_perf sc) (highest_perf sc)
           (Z.quot (mhz * nominal_perf sc) (base_freq_mhz sc)) /\
   (lowest_perf sc <= highest_perf sc ->
    mhz < amd_cppc_perf_to_mhz sc (lowest_perf sc) ->
    amd_cppc_mhz_to_perf sc mhz = lowest_perf sc) /\
   (0 < base_freq_mhz sc -> nominal_perf sc <> 0 ->
    base_freq_mhz sc * highest_perf sc / nominal_perf sc <= INT_MAX ->
    mhz > amd_cppc_perf_to_mhz sc (highest_perf sc) ->
    amd_cppc_mhz_to_perf sc mhz = highest_perf sc)).
Proof.
  intros Hwf. split.
  { intros E. unfold amd_cppc_mhz_to_perf. rewrite E. reflexivity. }
  intros Hb0 Hm Hfit.
  pose proof Hwf as W. destruct W. unfold_ranges.
  destruct (Z_lt_le_dec (base_freq_mhz sc) 0) as [Hneg | Hpos].
  - (* negative anchor *)
    destruct (negative_anchor_quotient sc mhz Hwf Hneg ltac:(unfold INT_MAX; lia))
      as [Hq0 Hqm].
    assert (Hex : amd_cppc_mhz_to_perf sc mhz =
                  clamp (lowest_perf sc) (highest_perf sc)
                        (Z.quot (mhz * nominal_perf sc) (base_freq_mhz sc))).
    { rewrite mhz_to_perf_clamp by assumption. rewrite Hq0.
      unfold clamp. lia. }
    split; [exact Hex |]. split; [| intros; lia].
    intros Hord _. rewrite Hex. unfold clamp. lia.
  - (* positive anchor *)
    assert (Hb : 0 < base_freq_mhz sc) by lia.
    rewrite Z.quot_div_nonneg in * by nia.
    pose proof (mhz_to_perf_exact sc Hwf mhz ltac:(unfold INT_MAX; lia) Hb Hfit)
      as Hex.
    pose proof (div_bounds (mhz * nominal_perf sc) (base_freq_mhz sc) Hb).
    split; [exact Hex |]. split.
    + intros Hord Hcmp.
      destruct (Z.eq_dec (nominal_perf sc) 0) as [E0 | Hn].
      { unfold amd_cppc_perf_to_mhz in Hcmp. rewrite E0 in Hcmp. simpl in Hcmp.
        lia. }
      assert (Hnpos : 0 < nominal_perf sc) by lia.
      rewrite perf_to_mhz_pos in Hcmp;
        [| assumption | unfold is_uint8; lia | assumption | lia].
      pose proof (div_bounds (base_freq_mhz sc * lowest_perf sc)
                    (nominal_perf sc) Hnpos).
      pose proof (to_int_le (base_freq_mhz sc * lowest_perf sc / nominal_perf sc)
                    ltac:(nia)).
      rewrite Hex. unfold clamp.
      assert (mhz * nominal_perf sc / base_freq_mhz sc < lowest_perf sc) by nia.
      lia.
    + intros _ Hn Hfit' Hcmp.
      assert (Hnpos : 0 < nominal_perf sc) by lia.
      rewrite perf_to_mhz_exact in Hcmp;
        [| assumption | unfold is_uint8; lia | lia | lia | exact Hfit'].
      pose proof (div_bounds (base_freq_mhz sc * highest_perf sc)
                    (nominal_perf sc) Hnpos).
      rewrite Hex. unfold clamp.
      assert (highest_perf sc <= mhz * nominal_perf sc / base_freq_mhz sc) by nia.
      lia.
Qed.

Lemma mhz_to_perf_formula_witness :
  softc_wf sc_ref /\ base_freq_mhz sc_ref <> 0 /\ 0 <= 100 <= INT_MAX /\
  Z.quot (100 * nominal_perf sc_ref) (base_freq_mhz sc_ref) <= INT_MAX /\
  lowest_perf sc_ref <= highest_perf sc_ref /\
  100 < amd_cppc_perf_to_mhz sc_ref (lowest_perf sc_ref) /\
  amd_cppc_mhz_to_perf sc_ref 100 =
    clamp (lowest_perf sc_ref) (highest_perf sc_ref)
          (Z.quot (100 * nominal_perf sc_ref) (base_freq_mhz sc_ref)) /\
  amd_cppc_mhz_to_perf sc_ref 100 = lowest_perf sc_ref /\
  (0 < base_freq_mhz sc_ref /\ nominal_perf sc_ref <> 0 /\
   base_freq_mhz sc_ref * highest_perf sc_ref / nominal_perf sc_ref <= INT_MAX /\
   0 <= 4000 <= INT_MAX /\
   Z.quot (4000 * nominal_perf sc_ref) (base_freq_mhz sc_ref) <= INT_MAX /\
   4000 > amd_cppc_perf_to_mhz sc_ref (highest_perf sc_ref) /\
   amd_cppc_mhz_to_perf sc_ref 4000 = highest_perf sc_ref).
Proof.
  assert (Hb0 : base_freq_mhz sc_ref <> 0) by (simpl; lia).
  assert (Hm : 0 <= 100 <= INT_MAX) by (unfold INT_MAX; lia).
  assert (Hfit : Z.quot (100 * nominal_perf sc_ref) (base_freq_mhz sc_ref)
                 <= INT_MAX) by (vm_compute; discriminate).
  assert (Hord : lowest_perf sc_ref <= highest_perf sc_ref) by (simpl; lia).
  assert (Hlt : 100 < amd_cppc_perf_to_mhz sc_ref (lowest_perf sc_ref))
    by (vm_compute; reflexivity).
  assert (Hb : 0 < base_freq_mhz sc_ref) by (simpl; lia).
  assert (Hn : nominal_perf sc_ref <> 0) by (simpl; lia).
  assert (Hfit' : base_freq_mhz sc_ref * highest_perf sc_ref
                  / nominal_perf sc_ref <= INT_MAX)
    by (vm_compute; discriminate).
  assert (Hm4 : 0 <= 4000 <= INT_MAX) by (unfold INT_MAX; lia).
  assert (Hfit4 : Z.quot (4000 * nominal_perf sc_ref) (base_freq_mhz sc_ref)
                  <= INT_MAX) by (vm_compute; discriminate).
  assert (Hgt : 4000 > amd_cppc_perf_to_mhz sc_ref (highest_perf sc_ref))
    by (vm_compute; reflexivity).
  pose proof (proj2 (mhz_to_perf_formula sc_ref 100 sc_ref_wf) Hb0 Hm Hfit)
    as (Hex & Hfloor & _).
  pose proof (proj2 (mhz_to_perf_formula sc_ref 4000 sc_ref_wf) Hb0 Hm4 Hfit4)
    as (_ & _ & Hceil).
  split; [exact sc_ref_wf |]. split; [exact Hb0 |]. split; [exact Hm |].
  split; [exact Hfit |]. split; [exact Hord |]. split; [exact Hlt |].
  split; [exact Hex |]. split; [exact (Hfloor Hord Hlt) |].
  split; [exact Hb |]. split; [exact Hn |]. split; [exact Hfit' |].
  split; [exact Hm4 |]. split; [exact Hfit4 |]. split; [exact Hgt |].
  exact (Hceil Hb Hn Hfit' Hgt).
Defined.

(** Narrowing to [int] drops whole multiples of 2^32. *)
Lemma to_int_shift x k : is_int (x - k * 2 ^ 32) -> to_int x = x - k * 2 ^ 32.
Proof.
  unfold is_int, to_int. intros H.
  replace (x + 2 ^ 31) with (x - k * 2 ^ 32 + 2 ^ 31 + k * 2 ^ 32) by ring.
  rewrite Z_mod_plus_full. rewrite Z.mod_small; lia.
Qed.

(** In the reference scenario the 64-bit quotient of a negative frequency
    narrows to a negative [int]. *)
Lemma ref_quotient_negative mhz :
  - 2 ^ 31 <= mhz < 0 ->
  to_int (to_uint64 (to_uint64 mhz * to_uint64 100) / to_uint64 2000) < 0.
Proof.
  intros Hm.
  rewrite (to_uint64_neg mhz) by lia.
  rewrite (to_uint64_small 100), (to_uint64_small 2000)
    by (unfold is_uint64; lia).
  replace (to_uint64 ((mhz + 2 ^ 64) * 100)) with (100 * mhz + 2 ^ 64).
  2:{ unfold to_uint64.
      replace ((mhz + 2 ^ 64) * 100) with (100 * mhz + 2 ^ 64 + 99 * 2 ^ 64)
        by ring.
      rewrite Z_mod_plus_full. symmetry. apply Z.mod_small. lia. }
  pose proof (div_bounds (100 * mhz + 2 ^ 64) 2000 ltac:(lia)) as Hq.
  rewrite (to_int_shift _ 2147484) by (unfold is_int; lia).
  lia.
Qed.

(** C10, as stated, fails in the reference scenario: -1 MHz is converted to
    lowest_perf (20), not to highest_perf (180). *)
Lemma mhz_to_perf_negative_not_highest :
  -1 < 0 /\
  amd_cppc_mhz_to_perf sc_ref (-1) = lowest_perf sc_ref /\
  amd_cppc_mhz_to_perf sc_ref (-1) <> highest_perf sc_ref.
Proof. vm_compute. repeat split; discriminate. Qed.

(** ** Request state machine *)

Lemma wrmsr_req hw val : msr_req (wrmsr hw MSR_AMD_CPPC_REQ val) = val.
Proof. reflexivity. Qed.

Lemma write_req_run sc hw :
  amd_cppc_write_req sc hw =
  (tt, wrmsr hw MSR_AMD_CPPC_REQ
         (AMD_CPPC_REQ_BUILD (req_max_perf sc) (req_min_perf sc)
                             (req_des_perf sc) (req_epp sc))).
Proof. reflexivity. Qed.

Lemma set_disabled sc cf hw :
  cppc_enabled sc = false -> amd_cppc_set sc cf hw = (ENXIO, sc, hw).
Proof. intros E. unfold amd_cppc_set. rewrite E. reflexivity. Qed.

Lemma set_enabled sc cf hw :
  cppc_enabled sc = true ->
  amd_cppc_set sc cf hw =
  (0, set_req_perf sc (amd_cppc_mhz_to_perf sc (freq cf)) (lowest_perf sc) 0,
   wrmsr hw MSR_AMD_CPPC_REQ
     (AMD_CPPC_REQ_BUILD (amd_cppc_mhz_to_perf sc (freq cf)) (lowest_perf sc)
                         0 (req_epp sc))).
Proof. intros E. unfold amd_cppc_set. rewrite E. reflexivity. Qed.

(** C4: set_target on a disabled instance fails with ENXIO and changes
    neither the softc nor the request register; on an enabled instance it
    succeeds, sets req_max_perf to mhz_to_perf of the frequency,
    req_min_perf to lowest_perf and req_des_perf to 0, keeps the other
    fields, and writes the combined request. *)
Theorem set_target_spec (sc : amd_cppc_softc) (cf : cf_setting) (hw : machine) :
  (cppc_enabled sc = false -> amd_cppc_set sc cf hw = (ENXIO, sc, hw)) /\
  (cppc_enabled sc = true ->
   exists sc' hw',
     amd_cppc_set sc cf hw = (0, sc', hw') /\
     req_max_perf sc' = amd_cppc_mhz_to_perf sc (freq cf) /\
     req_min_perf sc' = lowest_perf sc /\
     req_des_perf sc' = 0 /\
     req_epp sc' = req_epp sc /\
     epp sc' = epp sc /\
     cppc_enabled sc' = true /\
     (highest_perf sc', nominal_perf sc', lowest_nonlinear_perf sc',
      lowest_perf sc', base_freq_mhz sc') =
     (highest_perf sc, nominal_perf sc, lowest_nonlinear_perf sc,
      lowest_perf sc, base_freq_mhz sc) /\
     msr_req hw' =
       AMD_CPPC_REQ_BUILD (req_max_perf sc') (req_min_perf sc')
                          (req_des_perf sc') (req_epp sc') /\
     msr_enable hw' = msr_enable hw).
Proof.
  split.
  - apply set_disabled.
  - intros E. rewrite (set_enabled sc cf hw E).
    eexists; eexists. split; [reflexivity |]. simpl.
    repeat split; assumption.
Qed.

Lemma set_target_spec_witness :
  cppc_enabled sc_ref = true /\
  exists sc' hw',
    amd_cppc_set sc_ref (cf_of_mhz 3000) hw_ref = (0, sc', hw') /\
    req_max_perf sc' = 150.
Proof.
  assert (E : cppc_enabled sc_ref = true) by reflexivity.
  split; [exact E |].
  destruct (proj2 (set_target_spec sc_ref (cf_of_mhz 3000) hw_ref) E)
    as (sc' & hw' & Hrun & Hmax & _).
  exists sc', hw'. split; [exact Hrun |].
  rewrite Hmax. reflexivity.
Defined.

(** C10 (amended): a negative mhz is converted to unsigned 64 bits before
    the multiplication and the division, and the quotient is narrowed to a
    32-bit int before it is clamped.  The result lies in
    [lowest_perf, highest_perf]; it is highest_perf when the narrowed
    quotient exceeds highest_perf and lowest_perf when the narrowed quotient
    is below lowest_perf, which is what happens for every negative mhz in
    the reference scenario (nominal 100, anchor 2000).  set_target with a
    negative frequency stores that level in req_max_perf. *)
Theorem mhz_to_perf_negative (sc : amd_cppc_softc) (mhz : Z) :
  softc_wf sc -> caps_valid sc -> base_freq_mhz sc <> 0 ->
  - 2 ^ 31 <= mhz < 0 ->
  let q := to_int (to_uint64 ((mhz + 2 ^ 64) * nominal_perf sc)
                   / to_uint64 (base_freq_mhz sc)) in
  amd_cppc_mhz_to_perf sc mhz = clamp (lowest_perf sc) (highest_perf sc) q /\
  lowest_perf sc <= amd_cppc_mhz_to_perf sc mhz <= highest_perf sc /\
  (highest_perf sc <= q -> amd_cppc_mhz_to_perf sc mhz = highest_perf sc) /\
  (q <= lowest_perf sc -> amd_cppc_mhz_to_perf sc mhz = lowest_perf sc) /\
  (nominal_perf sc = 100 -> base_freq_mhz sc = 2000 ->
   amd_cppc_mhz_to_perf sc mhz = lowest_perf sc) /\
  (cppc_enabled sc = true ->
   forall (cf : cf_setting) (hw : machine), freq cf = mhz ->
     req_max_perf (snd (fst (amd_cppc_set sc cf hw))) =
     clamp (lowest_perf sc) (highest_perf sc) q).
Proof.
  intros Hwf (Hh & Hn & Hl & Hord) Hb Hm q.
  assert (Hq : amd_cppc_mhz_to_perf sc mhz =
               clamp (lowest_perf sc) (highest_perf sc) q).
  { rewrite mhz_to_perf_clamp by assumption.
    subst q. rewrite (to_uint64_neg mhz) by lia.
    rewrite (to_uint64_small (nominal_perf sc)); [reflexivity |].
    destruct Hwf. unfold_ranges. lia. }
  split; [exact Hq |]. rewrite Hq. unfold clamp.
  split; [lia |]. split; [lia |]. split; [lia |]. split.
  - intros En Eb.
    assert (Hneg : q < 0).
    { subst q. rewrite En, Eb.
      pose proof (ref_quotient_negative mhz Hm) as R.
      rewrite (to_uint64_neg mhz) in R by lia.
      rewrite (to_uint64_small 100) in R by (unfold is_uint64; lia).
      exact R. }
    destruct Hwf. unfold_ranges. lia.
  - intros E cf hw Ef. rewrite (set_enabled sc cf hw E). simpl.
    rewrite Ef. exact Hq.
Qed.

Lemma mhz_to_perf_negative_witness :
  softc_wf sc_1000 /\ caps_valid sc_1000 /\ base_freq_mhz sc_1000 <> 0 /\
  - 2 ^ 31 <= -1 < 0 /\
  lowest_perf sc_1000 <= amd_cppc_mhz_to_perf sc_1000 (-1) <= highest_perf sc_1000.
Proof.
  assert (Hv : caps_valid sc_1000) by (unfold caps_valid; simpl; lia).
  assert (Hb : base_freq_mhz sc_1000 <> 0) by (simpl; lia).
  assert (Hm : - 2 ^ 31 <= -1 < 0) by lia.
  split; [exact sc_1000_wf |]. split; [exact Hv |]. split; [exact Hb |].
  split; [exact Hm |].
  exact (proj1 (proj2 (mhz_to_perf_negative sc_1000 (-1) sc_1000_wf Hv Hb Hm))).
Defined.

(** ** Round trip through the converter *)

Section RoundTrip.

Variable sc : amd_cppc_softc.
Hypothesis Hwf : softc_wf sc.
Hypothesis Hvalid : caps_valid sc.
Hypothesis Hbase : 0 < base_freq_mhz sc.

Let b := base_freq_mhz sc.
Let nom := nominal_perf sc.
Let lo := lowest_perf sc.
Let hi := highest_perf sc.

Lemma floor_mhz_exact : amd_cppc_perf_to_mhz sc lo = b * lo / nom.
Proof.
  destruct Hvalid as (Hh & Hn & Hl & Hord). pose proof Hwf as W. destruct W.
  subst b nom lo. unfold_ranges.
  apply perf_to_mhz_exact; try assumption; unfold_ranges; try lia.
  pose proof (div_bounds (base_freq_mhz sc * lowest_perf sc) (nominal_perf sc)
                ltac:(lia)). nia.
Qed.

Lemma ceiling_mhz_le : amd_cppc_perf_to_mhz sc hi <= b * hi / nom.
Proof.
  destruct Hvalid as (Hh & Hn & Hl & Hord). pose proof Hwf as W. destruct W.
  subst b nom hi. unfold_ranges.
  rewrite perf_to_mhz_pos; try assumption; unfold_ranges; try lia.
  apply to_int_le. apply Z.div_pos; nia.
Qed.

(** Inside the frequency range the quotient needs no upper clamp. *)
Lemma in_range_perf f :
  amd_cppc_perf_to_mhz sc lo <= f <= amd_cppc_perf_to_mhz sc hi ->
  0 <= f <= INT_MAX /\ 0 <= f * nom / b <= hi /\
  amd_cppc_mhz_to_perf sc f = Z.max lo (f * nom / b).
Proof.
  intros [Hlo Hhi].
  pose proof ceiling_mhz_le as Hc. rewrite floor_mhz_exact in Hlo.
  destruct Hvalid as (Hh & Hn & Hl & Hord). pose proof Hwf as W. destruct W.
  subst b nom lo hi. unfold_ranges.
  assert (Hnpos : 0 < nominal_perf sc) by lia.
  pose proof (div_bounds (base_freq_mhz sc * lowest_perf sc) (nominal_perf sc) Hnpos).
  pose proof (div_bounds (base_freq_mhz sc * highest_perf sc) (nominal_perf sc) Hnpos).
  pose proof (div_bounds (f * nominal_perf sc) (base_freq_mhz sc) Hbase).
  pose proof (to_int_range
                (to_uint64 (to_uint64 (base_freq_mhz sc) * to_uint64 (highest_perf sc))
                 / to_uint64 (nominal_perf sc))) as R.
  unfold is_int in R.
  assert (Hf : 0 <= f <= 2 ^ 31 - 1).
  { split; [nia |].
    unfold amd_cppc_perf_to_mhz in Hhi.
    destruct (Z.eqb_spec (nominal_perf sc) 0); lia. }
  assert (Hq : 0 <= f * nominal_perf sc / base_freq_mhz sc <= highest_perf sc) by nia.
  split; [exact Hf |]. split; [exact Hq |].
  rewrite mhz_to_perf_exact; try assumption; unfold_ranges; try lia.
  unfold clamp. lia.
Qed.

Lemma round_trip_below f :
  amd_cppc_perf_to_mhz sc lo <= f <= amd_cppc_perf_to_mhz sc hi ->
  amd_cppc_perf_to_mhz sc (amd_cppc_mhz_to_perf sc f) <= f /\
  f - amd_cppc_perf_to_mhz sc (amd_cppc_mhz_to_perf sc f) <= mhz_per_level sc.
Proof.
  intros Hr. destruct (in_range_perf f Hr) as (Hf & Hq & Hp).
  destruct Hr as [Hlo Hhi]. rewrite Hp.
  pose proof floor_mhz_exact as Hfl.
  destruct Hvalid as (Hh & Hn & Hl & Hord). pose proof Hwf as W. destruct W.
  unfold mhz_per_level. subst b nom lo hi. unfold_ranges.
  assert (Hnpos : 0 < nominal_perf sc) by lia.
  pose proof (div_bounds (f * nominal_perf sc) (base_freq_mhz sc) Hbase) as Dq.
  pose proof (div_bounds (base_freq_mhz sc + nominal_perf sc - 1)
                (nominal_perf sc) Hnpos) as Dg.
  set (q := f * nominal_perf sc / base_freq_mhz sc) in *.
  set (g := (base_freq_mhz sc + nominal_perf sc - 1) / nominal_perf sc) in *.
  destruct (Z.max_spec (lowest_perf sc) q) as [[Hlt ->] | [Hge ->]].
  - (* the quotient is the level *)
    pose proof (div_bounds (base_freq_mhz sc * q) (nominal_perf sc) Hnpos) as Dp.
    rewrite perf_to_mhz_exact; try assumption; unfold_ranges; try lia.
    + set (m := base_freq_mhz sc * q / nominal_perf sc) in *. split; nia.
    + nia.
  - (* clamped to the floor: f is the floor frequency itself *)
    rewrite Hfl in *.
    pose proof (div_bounds (base_freq_mhz sc * lowest_perf sc)
                  (nominal_perf sc) Hnpos) as Dl.
    set (m := base_freq_mhz sc * lowest_perf sc / nominal_perf sc) in *.
    split; nia.
Qed.

Lemma mhz_to_perf_mono f g :
  amd_cppc_perf_to_mhz sc lo <= f -> f <= g ->
  g <= amd_cppc_perf_to_mhz sc hi ->
  amd_cppc_mhz_to_perf sc f <= amd_cppc_mhz_to_perf sc g.
Proof.
  intros Hlo Hfg Hhi.
  destruct (in_range_perf f ltac:(lia)) as (Hf & _ & ->).
  destruct (in_range_perf g ltac:(lia)) as (Hg & _ & ->).
  destruct Hvalid as (Hh & Hn & Hl & Hord). pose proof Hwf as W. destruct W.
  subst b nom lo hi. unfold_ranges.
  assert (f * nominal_perf sc / base_freq_mhz sc
          <= g * nominal_perf sc / base_freq_mhz sc)
    by (apply Z.div_le_mono; nia).
  lia.
Qed.

End RoundTrip.

(** A negative anchor becomes a 64-bit value above any numerator, so the
    quotient is 0 or 1 and the lower clamp decides. *)
Lemma mhz_to_perf_negative_anchor sc mhz :
  softc_wf sc -> caps_valid sc -> base_freq_mhz sc < 0 ->
  amd_cppc_mhz_to_perf sc mhz = lowest_perf sc.
Proof.
  intros Hwf (Hh & Hn & Hl & Hord) Hb.
  rewrite mhz_to_perf_clamp by (assumption || lia).
  destruct Hwf. unfold_ranges.
  rewrite (to_uint64_neg (base_freq_mhz sc)) by lia.
  set (N := to_uint64 (to_uint64 mhz * to_uint64 (nominal_perf sc))).
  assert (HN : 0 <= N < 2 ^ 64)
    by (subst N; unfold to_uint64; apply Z.mod_pos_bound; lia).
  pose proof (div_bounds N (base_freq_mhz sc + 2 ^ 64) ltac:(lia)) as D.
  assert (Hq : 0 <= N / (base_freq_mhz sc + 2 ^ 64) <= 1) by nia.
  rewrite to_int_small by (unfold is_int; lia).
  unfold clamp. lia.
Qed.

(** C5, as stated, fails for a negative anchor: with validated
    capabilities 3/1/1/1 and anchor -1073741823, the frequency 1073741827
    lies between the MHz of lowest_perf (-1073741823) and the MHz of
    highest_perf (1073741827), it converts to level 1, and level 1 converts
    back to -1073741823 MHz: 2147483650 MHz away, more than the anchor
    itself, let alone the span of one level. *)
Lemma round_trip_negative_anchor :
  caps_valid sc_neg_anchor /\ base_freq_mhz sc_neg_anchor <> 0 /\
  amd_cppc_perf_to_mhz sc_neg_anchor (lowest_perf sc_neg_anchor) <= 1073741827
    <= amd_cppc_perf_to_mhz sc_neg_anchor (highest_perf sc_neg_anchor) /\
  amd_cppc_perf_to_mhz sc_neg_anchor (amd_cppc_mhz_to_perf sc_neg_anchor 1073741827)
    = -1073741823 /\
  Z.abs (1073741827 - amd_cppc_perf_to_mhz sc_neg_anchor
                        (amd_cppc_mhz_to_perf sc_neg_anchor 1073741827))
    > Z.abs (base_freq_mhz sc_neg_anchor) /\
  ~ (1073741827 - amd_cppc_perf_to_mhz sc_neg_anchor
                    (amd_cppc_mhz_to_perf sc_neg_anchor 1073741827)
     <= mhz_per_level sc_neg_anchor).
Proof.
  vm_compute.
  repeat split; try discriminate; try reflexivity.
  intros H. apply H. reflexivity.
Qed.

(** C5 (amended): with validated capabilities and a nonzero anchor,
    mhz_to_perf is non-decreasing over the range from the MHz of
    lowest_perf to the MHz of highest_perf; and, when the anchor is
    positive, for every f in that range perf_to_mhz (mhz_to_perf f) is at
    most f and at most one level's MHz span below it. *)
Theorem mhz_round_trip (sc : amd_cppc_softc) :
  softc_wf sc -> caps_valid sc -> base_freq_mhz sc <> 0 ->
  (0 < base_freq_mhz sc ->
   forall f : Z,
     amd_cppc_perf_to_mhz sc (lowest_perf sc) <= f
       <= amd_cppc_perf_to_mhz sc (highest_perf sc) ->
     amd_cppc_perf_to_mhz sc (amd_cppc_mhz_to_perf sc f) <= f /\
     f - amd_cppc_perf_to_mhz sc (amd_cppc_mhz_to_perf sc f)
       <= mhz_per_level sc) /\
  (forall f g : Z,
     amd_cppc_perf_to_mhz sc (lowest_perf sc) <= f -> f <= g ->
     g <= amd_cppc_perf_to_mhz sc (highest_perf sc) ->
     amd_cppc_mhz_to_perf sc f <= amd_cppc_mhz_to_perf sc g).
Proof.
  intros Hwf Hv Hb. split.
  - intros Hpos f Hr. now apply round_trip_below.
  - intros f g H1 H2 H3.
    destruct (Z_lt_le_dec (base_freq_mhz sc) 0) as [Hneg | Hpos].
    + rewrite !mhz_to_perf_negative_anchor by assumption. lia.
    + apply mhz_to_perf_mono; try assumption. lia.
Qed.

Lemma mhz_round_trip_witness :
  softc_wf sc_ref /\ caps_valid sc_ref /\ base_freq_mhz sc_ref <> 0 /\
  0 < base_freq_mhz sc_ref /\
  amd_cppc_perf_to_mhz sc_ref (lowest_perf sc_ref) <= 3010
    <= amd_cppc_perf_to_mhz sc_ref (highest_perf sc_ref) /\
  amd_cppc_perf_to_mhz sc_ref (amd_cppc_mhz_to_perf sc_ref 3010) <= 3010 /\
  3010 - amd_cppc_perf_to_mhz sc_ref (amd_cppc_mhz_to_perf sc_ref 3010)
    <= mhz_per_level sc_ref.
Proof.
  assert (Hb : base_freq_mhz sc_ref <> 0) by (simpl; lia).
  assert (Hpos : 0 < base_freq_mhz sc_ref) by (simpl; lia).
  assert (Hr : amd_cppc_perf_to_mhz sc_ref (lowest_perf sc_ref) <= 3010
               <= amd_cppc_perf_to_mhz sc_ref (highest_perf sc_ref))
    by (vm_compute; split; discriminate).
  split; [exact sc_ref_wf |]. split; [exact sc_ref_valid |].
  split; [exact Hb |]. split; [exact Hpos |]. split; [exact Hr |].
  exact (proj1 (mhz_round_trip sc_ref sc_ref_wf sc_ref_valid Hb) Hpos 3010 Hr).
Defined.

(** ** Capability reader *)

Lemma land_ff_range x : is_uint8 (Z.land x 0xFF).
Proof.
  unfold is_uint8. change 0xFF with (Z.ones 8).
  rewrite Z.land_ones by lia. apply Z.mod_pos_bound. lia.
Qed.

Lemma read_caps_run sc hw :
  amd_cppc_read_caps sc hw =
  (caps_error (caps_stored sc (msr_cap1 hw)), caps_stored sc (msr_cap1 hw), hw).
Proof.
  unfold amd_cppc_read_caps, bind, amd_cppc_rdmsr, ret, caps_error, caps_stored.
  change (rdmsr hw MSR_AMD_CPPC_CAP1) with (msr_cap1 hw).
  unfold AMD_CPPC_HIGHEST_PERF, AMD_CPPC_NOMINAL_PERF,
    AMD_CPPC_LOWNONLIN_PERF, AMD_CPPC_LOWEST_PERF.
  rewrite !(to_uint8_small _ (land_ff_range _)).
  destruct (_ || _); [| destruct (_ || _)]; reflexivity.
Qed.

Lemma caps_error_ok sc : caps_error sc = 0 <-> caps_valid sc.
Proof.
  unfold caps_error, caps_valid, ENXIO.
  destruct (Z.eqb_spec (highest_perf sc) 0);
    destruct (Z.eqb_spec (nominal_perf sc) 0);
    destruct (Z.eqb_spec (lowest_perf sc) 0);
    destruct (Z.gtb_spec (lowest_perf sc) (nominal_perf sc));
    destruct (Z.gtb_spec (nominal_perf sc) (highest_perf sc));
    cbn [orb]; split; intros; lia.
Qed.

Lemma caps_error_cases sc : caps_error sc = 0 \/ caps_error sc = ENXIO.
Proof.
  unfold caps_error.
  destruct (_ || _); [| destruct (_ || _)]; auto.
Qed.

(** C1, as stated, fails: the capability value 0xB4640A14 has
    lowest_nonlinear_perf = 10 < lowest_perf = 20, and read_caps accepts
    it. *)
Lemma read_caps_accepts_unordered_nonlinear :
  let r := amd_cppc_read_caps sc_zero (mk_machine cap1_bad_nonlinear 0 0 true) in
  let sc' := snd (fst r) in
  fst (fst r) = 0 /\
  ~ (lowest_perf sc' <= lowest_nonlinear_perf sc' /\
     lowest_nonlinear_perf sc' <= nominal_perf sc' /\
     nominal_perf sc' <= highest_perf sc').
Proof. vm_compute. split; [reflexivity |]. intros [H _]. apply H. reflexivity. Qed.

(** C1 (amended): read_caps stores the four 8-bit fields of the capability
    value and fails with ENXIO unless highest_perf, nominal_perf and
    lowest_perf are non-zero and lowest_perf <= nominal_perf <=
    highest_perf; it succeeds exactly in that case, and
    lowest_nonlinear_perf is stored without being checked. *)
Theorem read_caps_validates (sc : amd_cppc_softc) (hw : machine) :
  let r := amd_cppc_read_caps sc hw in
  let sc' := snd (fst r) in
  (fst (fst r) = 0 \/ fst (fst r) = ENXIO) /\
  (fst (fst r) = 0 <-> caps_valid sc') /\
  highest_perf sc' = AMD_CPPC_HIGHEST_PERF (msr_cap1 hw) /\
  nominal_perf sc' = AMD_CPPC_NOMINAL_PERF (msr_cap1 hw) /\
  lowest_nonlinear_perf sc' = AMD_CPPC_LOWNONLIN_PERF (msr_cap1 hw) /\
  lowest_perf sc' = AMD_CPPC_LOWEST_PERF (msr_cap1 hw).
Proof.
  intros r sc'. subst sc' r. rewrite read_caps_run. cbn [fst snd].
  split; [apply caps_error_cases |]. split; [apply caps_error_ok |].
  repeat split; reflexivity.
Qed.

(** ** Disable, suspend and resume *)

Lemma disable_run sc hw :
  cppc_enabled sc = true ->
  amd_cppc_disable sc hw =
  (set_cppc_enabled sc false,
   wrmsr (wrmsr hw MSR_AMD_CPPC_REQ 0) MSR_AMD_CPPC_ENABLE
         (Z.land (msr_enable hw) (to_uint64 (Z.lnot AMD_CPPC_ENABLE_BIT)))).
Proof. intros E. unfold amd_cppc_disable. rewrite E. reflexivity. Qed.

Lemma disable_noop sc hw :
  cppc_enabled sc = false -> amd_cppc_disable sc hw = (sc, hw).
Proof. intros E. unfold amd_cppc_disable. rewrite E. reflexivity. Qed.

Lemma wrmsr_enable_req hw val :
  msr_req (wrmsr hw MSR_AMD_CPPC_ENABLE val) = msr_req hw.
Proof. unfold wrmsr. simpl. destruct (enable_latches hw); reflexivity. Qed.



Lemma attach_ref :
  amd_cppc_attach sc_zero 7 0 2000000000 0 hw_ref = (0, sc_ref, hw_attached).
Proof. reflexivity. Qed.




(** ** Preference accessor *)

(** A read of the preference, and a request whose copy failed, change
    nothing. *)
Lemma sysctl_epp_read sc hw err :
  amd_cppc_sysctl_epp sc (mk_sysctl_req None err) hw = (err, sc, hw).
Proof.
  unfold amd_cppc_sysctl_epp, sysctl_handle_int. simpl.
  destruct (Z.eqb_spec err 0) as [-> | Hne]; simpl; [reflexivity |].
  rewrite Bool.orb_true_r. reflexivity.
Qed.

Lemma set_preference_run sc e hw :
  set_preference sc e hw =
  if (e <? 0) || (e >? 100) then (EINVAL, sc, hw)
  else
    let sc' := set_epp sc e (amd_cppc_epp_to_hw e) in
    (0, sc',
     if cppc_enabled sc
     then wrmsr hw MSR_AMD_CPPC_REQ
            (AMD_CPPC_REQ_BUILD (req_max_perf sc) (req_min_perf sc)
                                (req_des_perf sc) (amd_cppc_epp_to_hw e))
     else hw).
Proof.
  unfold set_preference, amd_cppc_sysctl_epp, sysctl_handle_int. simpl.
  destruct ((e <? 0) || (e >? 100)); [reflexivity |].
  unfold bind. simpl. destruct (cppc_enabled sc); reflexivity.
Qed.

(** C6: set_preference with a value outside 0..100 fails with EINVAL and
    changes neither the softc nor the MSR file; with a value in 0..100 it
    succeeds, stores the value in epp and epp_to_hw of it in req_epp, keeps
    every other field, and, when the instance is enabled, writes the
    combined request with the new EPP at once (and leaves the MSR file alone
    when it is disabled). *)
Theorem set_preference_spec (sc : amd_cppc_softc) (e : Z) (hw : machine) :
  (e < 0 \/ 100 < e -> set_preference sc e hw = (EINVAL, sc, hw)) /\
  (0 <= e <= 100 ->
   exists sc' hw',
     set_preference sc e hw = (0, sc', hw') /\
     epp sc' = e /\
     req_epp sc' = amd_cppc_epp_to_hw e /\
     sc' = set_epp sc e (amd_cppc_epp_to_hw e) /\
     (req_max_perf sc', req_min_perf sc', req_des_perf sc', cppc_enabled sc') =
     (req_max_perf sc, req_min_perf sc, req_des_perf sc, cppc_enabled sc) /\
     (cppc_enabled sc = true ->
      msr_req hw' = AMD_CPPC_REQ_BUILD (req_max_perf sc') (req_min_perf sc')
                                       (req_des_perf sc') (req_epp sc')) /\
     (cppc_enabled sc = false -> hw' = hw)).
Proof.
  rewrite set_preference_run. split.
  - intros H.
    destruct (Z.ltb_spec e 0); destruct (Z.gtb_spec e 100); simpl;
      try reflexivity; lia.
  - intros H.
    destruct (Z.ltb_spec e 0); destruct (Z.gtb_spec e 100); try lia. simpl.
    eexists; eexists. split; [reflexivity |]. simpl.
    repeat split.
    + intros ->. reflexivity.
    + intros ->. reflexivity.
Qed.

Lemma set_preference_spec_witness :
  (100 < 101 /\ set_preference sc_ref 101 hw_attached = (EINVAL, sc_ref, hw_attached)) /\
  (0 <= 80 <= 100 /\
   exists sc' hw', set_preference sc_ref 80 hw_attached = (0, sc', hw') /\
                   epp sc' = 80 /\ req_epp sc' = 204).
Proof.
  assert (H1 : 101 < 0 \/ 100 < 101) by (right; lia).
  assert (H2 : 0 <= 80 <= 100) by lia.
  split.
  - split; [lia |].
    exact (proj1 (set_preference_spec sc_ref 101 hw_attached) H1).
  - split; [exact H2 |].
    destruct (proj2 (set_preference_spec sc_ref 80 hw_attached) H2)
      as (sc' & hw' & Hrun & He & Hr & _).
    exists sc', hw'. split; [exact Hrun |]. split; [exact He |].
    rewrite Hr. reflexivity.
Defined.

(** ** Settings enumerator *)

Lemma settings_loop_perfs fuel sc d count step :
  forall perf n sets,
    settings_loop fuel sc d count step perf n sets =
    (n + Z.of_nat (length (loop_perfs fuel (lowest_perf sc) count step perf n)),
     sets ++ map (fun p => settings_entry sc d (to_uint8 p))
                 (loop_perfs fuel (lowest_perf sc) count step perf n)).
Proof.
  induction fuel as [| fuel IH]; intros perf n sets; simpl.
  - now rewrite Z.add_0_r, app_nil_r.
  - destruct (perf >? lowest_perf sc); [| now rewrite Z.add_0_r, app_nil_r].
    destruct ((n >=? count) || (n >=? AMD_CPPC_MAX_SETTINGS));
      [now rewrite Z.add_0_r, app_nil_r |].
    rewrite IH. cbn [length map]. rewrite <- app_assoc. cbn [app].
    f_equal. lia.
Qed.

(** The fuel given by [amd_cppc_settings] is enough: more fuel gives the
    same result, so the loop always leaves through one of its own exits. *)
Lemma loop_perfs_fuel lowest count step :
  1 <= step ->
  forall fuel1 fuel2 perf n,
    (Z.to_nat (perf - lowest) <= fuel1)%nat ->
    (Z.to_nat (perf - lowest) <= fuel2)%nat ->
    loop_perfs fuel1 lowest count step perf n =
    loop_perfs fuel2 lowest count step perf n.
Proof.
  intros Hstep. induction fuel1 as [| fuel1 IH]; intros fuel2 perf n H1 H2.
  - destruct fuel2 as [| fuel2]; [reflexivity |]. simpl.
    destruct (Z.gtb_spec perf lowest); [lia | reflexivity].
  - destruct fuel2 as [| fuel2]; simpl.
    + destruct (Z.gtb_spec perf lowest); [lia | reflexivity].
    + destruct (Z.gtb_spec perf lowest); [| reflexivity].
      destruct ((n >=? count) || (n >=? AMD_CPPC_MAX_SETTINGS)); [reflexivity |].
      f_equal. apply IH; lia.
Qed.

Lemma settings_loop_fuel sc d count step perf n sets fuel :
  1 <= step -> (Z.to_nat (perf - lowest_perf sc) <= fuel)%nat ->
  settings_loop fuel sc d count step perf n sets =
  settings_loop (Z.to_nat (perf - lowest_perf sc)) sc d count step perf n sets.
Proof.
  intros Hs Hf. rewrite !settings_loop_perfs.
  rewrite (loop_perfs_fuel (lowest_perf sc) count step Hs fuel
             (Z.to_nat (perf - lowest_perf sc)) perf n Hf (Nat.le_refl _)).
  reflexivity.
Qed.

(** The loop stops at the budget and at the absolute cap. *)
Lemma loop_perfs_length fuel lowest count step :
  forall perf n,
    0 <= n ->
    n + Z.of_nat (length (loop_perfs fuel lowest count step perf n))
      <= Z.max n (Z.min count AMD_CPPC_MAX_SETTINGS).
Proof.
  induction fuel as [| fuel IH]; intros perf n Hn; cbn [loop_perfs length].
  - lia.
  - destruct (perf >? lowest); [| cbn [length]; lia].
    destruct (Z.geb_spec n count);
      destruct (Z.geb_spec n AMD_CPPC_MAX_SETTINGS); cbn [orb length];
      try lia.
    specialize (IH (perf - step) (n + 1) ltac:(lia)).
    rewrite Nat2Z.inj_succ. lia.
Qed.

(** A larger budget does not change a run that the budget did not stop. *)
Lemma loop_perfs_budget fuel lowest step c1 c2 :
  c1 <= c2 ->
  forall perf n,
    n + Z.of_nat (length (loop_perfs fuel lowest c1 step perf n)) < c1 ->
    loop_perfs fuel lowest c2 step perf n = loop_perfs fuel lowest c1 step perf n.
Proof.
  intros Hc.
  induction fuel as [| fuel IH]; intros perf n; cbn [loop_perfs];
    [reflexivity |].
  destruct (perf >? lowest); [| reflexivity].
  destruct (Z.geb_spec n c1); destruct (Z.geb_spec n c2);
    destruct (Z.geb_spec n AMD_CPPC_MAX_SETTINGS); cbn [orb length];
    intros Hlen; try reflexivity; try lia.
  f_equal. apply IH. rewrite Nat2Z.inj_succ in Hlen. lia.
Qed.

(** [amd_cppc_settings] in terms of the levels visited. *)
Lemma settings_run sc d count :
  cppc_enabled sc = true -> 0 < highest_perf sc - lowest_perf sc ->
  let ps := loop_perfs (Z.to_nat (highest_perf sc - lowest_perf sc))
              (lowest_perf sc) count
              (settings_step (highest_perf sc - lowest_perf sc))
              (highest_perf sc) 0 in
  let n := Z.of_nat (length ps) in
  amd_cppc_settings sc d count =
  if (n <? count) && (n <? AMD_CPPC_MAX_SETTINGS)
  then (0, map (fun p => settings_entry sc d (to_uint8 p)) ps
           ++ [settings_entry sc d (lowest_perf sc)], n + 1)
  else (0, map (fun p => settings_entry sc d (to_uint8 p)) ps, n).
Proof.
  intros E Hr ps n. unfold amd_cppc_settings. rewrite E. cbn [negb].
  destruct (Z.leb_spec (highest_perf sc - lowest_perf sc) 0); [lia |].
  rewrite settings_loop_perfs. fold ps. cbn [app]. rewrite Z.add_0_l. fold n.
  destruct ((n <? count) && (n <? AMD_CPPC_MAX_SETTINGS)); reflexivity.
Qed.

(** The number of entries is the returned count; it never exceeds the
    caller's budget nor [AMD_CPPC_MAX_SETTINGS]. *)
Lemma settings_count_bound sc d count :
  let r := amd_cppc_settings sc d count in
  (fst (fst r) = 0 ->
   Z.of_nat (length (snd (fst r))) = snd r /\
   snd r <= AMD_CPPC_MAX_SETTINGS /\ (0 <= count -> snd r <= count)) /\
  (fst (fst r) <> 0 -> cppc_enabled sc = false /\ r = (ENXIO, [], count)).
Proof.
  intros r. subst r. unfold amd_cppc_settings.
  destruct (cppc_enabled sc); cbn [negb fst snd].
  2:{ split; [unfold ENXIO; discriminate | intros _; split; reflexivity]. }
  destruct (Z.leb_spec (highest_perf sc - lowest_perf sc) 0).
  { cbn [fst snd length]. unfold AMD_CPPC_MAX_SETTINGS.
    split; [intros _; repeat split; simpl; lia | intros Hne; now elim Hne]. }
  rewrite settings_loop_perfs. cbn [app].
  match goal with |- context [loop_perfs ?f ?l ?c ?s ?p 0] =>
    pose proof (loop_perfs_length f l c s p 0 ltac:(lia)) as Hlen;
    set (ps := loop_perfs f l c s p 0) in *
  end.
  rewrite Z.add_0_l in *. unfold AMD_CPPC_MAX_SETTINGS in *.
  destruct (Z.ltb_spec (Z.of_nat (length ps)) count);
    destruct (Z.ltb_spec (Z.of_nat (length ps)) 64);
    cbn [andb fst snd]; (split; [intros _ | intros Hne; now elim Hne]);
    rewrite ?length_app, ?length_map; cbn [length]; lia.
Qed.







(** ** The reference scenario, end to end *)

(** set_target(3000) stores level 150, and get_current reports 3000 MHz. *)
Example set_3000_then_get :
  let '(err, sc1, hw1) := amd_cppc_set sc_ref (cf_of_mhz 3000) hw_attached in
  err = 0 /\ req_max_perf sc1 = 150 /\
  Z.land (Z.shiftr (msr_req hw1) AMD_CPPC_MIN_PERF_SHIFT) 0xFF = 20 /\
  fst (amd_cppc_get sc1 7 (cf_of_mhz 0)) = 0 /\
  freq (snd (amd_cppc_get sc1 7 (cf_of_mhz 0))) = 3000.
Proof. vm_compute. repeat split; reflexivity. Qed.

(** On hardware that drops the write to the enable register, attach fails
    with ENXIO and the instance stays disabled. *)
Example attach_enable_refused :
  let '(err, sc1, hw1) :=
    amd_cppc_attach sc_zero 7 0 2000000000 0 (mk_machine cap1_ref 0 0 false) in
  err = ENXIO /\ cppc_enabled sc1 = false /\ msr_req hw1 = 0 /\
  amd_cppc_settings sc1 7 64 = (ENXIO, [], 64).
Proof. vm_compute. repeat split; reflexivity. Qed.

(** * Further properties of the driver *)

(** ** Register layouts *)

Lemma lor_shifted_add hi lo n :
  0 <= n -> 0 <= lo < 2 ^ n -> Z.lor (hi * 2 ^ n) lo = hi * 2 ^ n + lo.
Proof.
  intros Hn Hlo.
  rewrite <- (Z.add_lor_land (hi * 2 ^ n) lo).
  replace (Z.land (hi * 2 ^ n) lo) with 0; [lia |].
  symmetry. apply Z.bits_inj'. intros i Hi.
  rewrite Z.land_spec, Z.bits_0.
  destruct (Z_lt_le_dec i n) as [Hlt | Hge].
  - rewrite Z.mul_pow2_bits_low by lia. reflexivity.
  - rewrite <- (Z.mod_small lo (2 ^ n)) by lia.
    rewrite Z.mod_pow2_bits_high by lia. apply Bool.andb_false_r.
Qed.

(** For byte-sized fields the request value is the sum of the four fields
    at their offsets. *)
Lemma req_build_sum max min des epp :
  is_uint8 max -> is_uint8 min -> is_uint8 des -> is_uint8 epp ->
  AMD_CPPC_REQ_BUILD max min des epp =
  max + min * 2 ^ 8 + des * 2 ^ 16 + epp * 2 ^ 24.
Proof.
  unfold is_uint8. intros Hx Hm Hd He.
  unfold AMD_CPPC_REQ_BUILD, AMD_CPPC_EPP_PERF_SHIFT, AMD_CPPC_DES_PERF_SHIFT,
    AMD_CPPC_MIN_PERF_SHIFT, AMD_CPPC_MAX_PERF_SHIFT.
  rewrite !Z.shiftl_mul_pow2 by lia.
  rewrite (to_uint64_small max), (to_uint64_small min),
    (to_uint64_small des), (to_uint64_small epp) by (unfold is_uint64; lia).
  rewrite !to_uint64_small by (unfold is_uint64; lia).
  change (2 ^ 0) with 1. rewrite Z.mul_1_r.
  rewrite (lor_shifted_add epp (des * 2 ^ 16) 24) by lia.
  replace (epp * 2 ^ 24 + des * 2 ^ 16) with ((epp * 2 ^ 8 + des) * 2 ^ 16)
    by lia.
  rewrite (lor_shifted_add _ (min * 2 ^ 8) 16) by lia.
  replace ((epp * 2 ^ 8 + des) * 2 ^ 16 + min * 2 ^ 8)
    with ((epp * 2 ^ 16 + des * 2 ^ 8 + min) * 2 ^ 8) by lia.
  rewrite (lor_shifted_add _ max 8) by lia.
  lia.
Qed.

Lemma byte_at v s : 0 <= s -> Z.land (Z.shiftr v s) 0xFF = (v / 2 ^ s) mod 2 ^ 8.
Proof.
  intros Hs. rewrite Z.shiftr_div_pow2 by lia.
  change 0xFF with (Z.ones 8). now rewrite Z.land_ones by lia.
Qed.

(** X1: the value that write_req stores in the request register fits 32
    bits and carries req_max_perf in bits 0-7, req_min_perf in bits 8-15,
    req_des_perf in bits 16-23 and req_epp in bits 24-31; the other
    registers are not written. *)
Theorem write_req_layout (sc : amd_cppc_softc) (hw : machine) :
  softc_wf sc ->
  let hw' := snd (amd_cppc_write_req sc hw) in
  0 <= msr_req hw' < 2 ^ 32 /\
  Z.land (Z.shiftr (msr_req hw') AMD_CPPC_MAX_PERF_SHIFT) 0xFF = req_max_perf sc /\
  Z.land (Z.shiftr (msr_req hw') AMD_CPPC_MIN_PERF_SHIFT) 0xFF = req_min_perf sc /\
  Z.land (Z.shiftr (msr_req hw') AMD_CPPC_DES_PERF_SHIFT) 0xFF = req_des_perf sc /\
  Z.land (Z.shiftr (msr_req hw') AMD_CPPC_EPP_PERF_SHIFT) 0xFF = req_epp sc /\
  msr_enable hw' = msr_enable hw /\ msr_cap1 hw' = msr_cap1 hw.
Proof.
  intros Hwf hw'. subst hw'. rewrite write_req_run. cbn [snd].
  rewrite wrmsr_req. destruct Hwf.
  rewrite req_build_sum by assumption.
  unfold AMD_CPPC_MAX_PERF_SHIFT, AMD_CPPC_MIN_PERF_SHIFT,
    AMD_CPPC_DES_PERF_SHIFT, AMD_CPPC_EPP_PERF_SHIFT.
  rewrite !byte_at by lia. unfold_ranges.
  repeat split; try reflexivity; try lia;
    Z.to_euclidean_division_equations; lia.
Qed.

Lemma write_req_layout_witness :
  softc_wf sc_ref /\
  Z.land (Z.shiftr (msr_req (snd (amd_cppc_write_req sc_ref hw_ref)))
                   AMD_CPPC_EPP_PERF_SHIFT) 0xFF = req_epp sc_ref.
Proof.
  split; [exact sc_ref_wf |].
  exact (proj1 (proj2 (proj2 (proj2 (proj2
    (write_req_layout sc_ref hw_ref sc_ref_wf)))))).
Defined.

Lemma cap1_pack_fields lo lnl nom hi upper :
  is_uint8 lo -> is_uint8 lnl -> is_uint8 nom -> is_uint8 hi -> 0 <= upper ->
  AMD_CPPC_LOWEST_PERF (cap1_pack lo lnl nom hi upper) = lo /\
  AMD_CPPC_LOWNONLIN_PERF (cap1_pack lo lnl nom hi upper) = lnl /\
  AMD_CPPC_NOMINAL_PERF (cap1_pack lo lnl nom hi upper) = nom /\
  AMD_CPPC_HIGHEST_PERF (cap1_pack lo lnl nom hi upper) = hi.
Proof.
  unfold is_uint8, cap1_pack, AMD_CPPC_LOWEST_PERF, AMD_CPPC_LOWNONLIN_PERF,
    AMD_CPPC_NOMINAL_PERF, AMD_CPPC_HIGHEST_PERF.
  intros Hlo Hlnl Hnom Hhi Hup. rewrite !byte_at by lia.
  repeat split; Z.to_euclidean_division_equations; lia.
Qed.

(** X2: read_caps decodes the capability value byte by byte: bits 0-7 are
    lowest_perf, 8-15 lowest_nonlinear_perf, 16-23 nominal_perf and 24-31
    highest_perf; bits 32-63 are ignored; the request fields, the anchor,
    the preference, the enabled flag and the MSR file are left alone. *)
Theorem read_caps_decodes (sc : amd_cppc_softc) (hw : machine)
    (lo lnl nom hi upper : Z) :
  is_uint8 lo -> is_uint8 lnl -> is_uint8 nom -> is_uint8 hi -> 0 <= upper ->
  msr_cap1 hw = cap1_pack lo lnl nom hi upper ->
  let r := amd_cppc_read_caps sc hw in
  snd (fst r) = set_caps sc hi nom lnl lo /\
  snd r = hw /\
  (fst (fst r) = 0 <-> (hi <> 0 /\ nom <> 0 /\ lo <> 0 /\ lo <= nom <= hi)).
Proof.
  intros Hlo Hlnl Hnom Hhi Hup Hcap r. subst r.
  rewrite read_caps_run. cbn [fst snd]. unfold caps_stored. rewrite Hcap.
  destruct (cap1_pack_fields lo lnl nom hi upper Hlo Hlnl Hnom Hhi Hup)
    as (-> & -> & -> & ->).
  split; [reflexivity |]. split; [reflexivity |].
  rewrite caps_error_ok. unfold caps_valid. simpl. tauto.
Qed.

Lemma read_caps_decodes_witness :
  is_uint8 20 /\ is_uint8 40 /\ is_uint8 100 /\ is_uint8 180 /\ 0 <= 5 /\
  msr_cap1 (mk_machine (cap1_pack 20 40 100 180 5) 0 0 true)
    = cap1_pack 20 40 100 180 5 /\
  snd (fst (amd_cppc_read_caps sc_zero
              (mk_machine (cap1_pack 20 40 100 180 5) 0 0 true)))
    = set_caps sc_zero 180 100 40 20.
Proof.
  assert (H1 : is_uint8 20) by (unfold is_uint8; lia).
  assert (H2 : is_uint8 40) by (unfold is_uint8; lia).
  assert (H3 : is_uint8 100) by (unfold is_uint8; lia).
  assert (H4 : is_uint8 180) by (unfold is_uint8; lia).
  assert (H5 : 0 <= 5) by lia.
  repeat (split; [assumption |]). split; [reflexivity |].
  exact (proj1 (read_caps_decodes sc_zero
                  (mk_machine (cap1_pack 20 40 100 180 5) 0 0 true)
                  20 40 100 180 5 H1 H2 H3 H4 H5 eq_refl)).
Defined.

(** ** More on the unit converter *)

Lemma epp_to_hw_clamped e :
  amd_cppc_epp_to_hw e = clamp 0 100 e * 255 / 100.
Proof.
  unfold amd_cppc_epp_to_hw, clamp.
  replace (if (if e <? 0 then 0 else e) >? 100 then 100
           else if e <? 0 then 0 else e)
    with (Z.min 100 (Z.max 0 e))
    by (destruct (Z.ltb_spec e 0);
        [destruct (Z.gtb_spec 0 100) | destruct (Z.gtb_spec e 100)]; lia).
  set (c := Z.min 100 (Z.max 0 e)).
  assert (Hc : 0 <= c <= 100) by (subst c; lia).
  rewrite (to_int_small (c * 255)) by (unfold is_int; lia).
  rewrite Z.quot_div_nonneg by lia.
  pose proof (div_bounds (c * 255) 100 ltac:(lia)).
  rewrite to_int_small by (unfold is_int; lia).
  apply to_uint8_small. unfold is_uint8. lia.
Qed.

Lemma epp_to_hw_byte e : is_uint8 (amd_cppc_epp_to_hw e).
Proof.
  rewrite epp_to_hw_clamped. unfold is_uint8, clamp.
  assert (Hc : 0 <= Z.min 100 (Z.max 0 e) <= 100) by lia.
  Z.to_euclidean_division_equations. lia.
Qed.

(** X3: epp_to_hw always returns a byte, and on 0..100 it is strictly
    increasing, so two different preferences never share a hardware
    value. *)
Theorem epp_to_hw_strict :
  (forall e : Z, is_uint8 (amd_cppc_epp_to_hw e)) /\
  (forall e1 e2 : Z, 0 <= e1 -> e1 < e2 -> e2 <= 100 ->
     amd_cppc_epp_to_hw e1 < amd_cppc_epp_to_hw e2) /\
  (forall e1 e2 : Z, 0 <= e1 <= 100 -> 0 <= e2 <= 100 ->
     amd_cppc_epp_to_hw e1 = amd_cppc_epp_to_hw e2 -> e1 = e2).
Proof.
  assert (Hlt : forall e1 e2, 0 <= e1 -> e1 < e2 -> e2 <= 100 ->
                amd_cppc_epp_to_hw e1 < amd_cppc_epp_to_hw e2).
  { intros e1 e2 H0 H1 H2. rewrite !epp_to_hw_clamped. unfold clamp.
    rewrite (Z.max_r 0 e1), (Z.max_r 0 e2), (Z.min_r 100 e1), (Z.min_r 100 e2)
      by lia.
    Z.to_euclidean_division_equations. lia. }
  split; [| split; [exact Hlt |]].
  - intros e. rewrite epp_to_hw_clamped. unfold is_uint8, clamp.
    assert (Hc : 0 <= Z.min 100 (Z.max 0 e) <= 100) by lia.
    Z.to_euclidean_division_equations. lia.
  - intros e1 e2 H1 H2 Heq.
    destruct (Z.lt_trichotomy e1 e2) as [L | [E | G]]; [| exact E |].
    + pose proof (Hlt e1 e2 ltac:(lia) L ltac:(lia)). lia.
    + pose proof (Hlt e2 e1 ltac:(lia) G ltac:(lia)). lia.
Qed.

Lemma epp_to_hw_strict_witness :
  0 <= 49 /\ 49 < 50 /\ 50 <= 100 /\
  amd_cppc_epp_to_hw 49 < amd_cppc_epp_to_hw 50.
Proof.
  assert (H0 : 0 <= 49) by lia.
  assert (H1 : 49 < 50) by lia.
  assert (H2 : 50 <= 100) by lia.
  split; [exact H0 |]. split; [exact H1 |]. split; [exact H2 |].
  exact (proj1 (proj2 epp_to_hw_strict) 49 50 H0 H1 H2).
Defined.

Lemma mhz_to_perf_in_caps (sc : amd_cppc_softc) (mhz : Z) :
  softc_wf sc -> caps_valid sc ->
  lowest_perf sc <= amd_cppc_mhz_to_perf sc mhz <= highest_perf sc.
Proof.
  intros Hwf (Hh & Hn & Hl & Hord).
  destruct (Z.eq_dec (base_freq_mhz sc) 0) as [E | Hb].
  - unfold amd_cppc_mhz_to_perf. rewrite E. simpl. lia.
  - apply mhz_to_perf_range; [assumption | assumption | lia].
Qed.

(** X4: with validated capabilities mhz_to_perf returns a level between
    lowest_perf and highest_perf for every frequency, negative and huge
    ones included, and for every anchor, zero included. *)
Theorem mhz_to_perf_bounded (sc : amd_cppc_softc) (mhz : Z) :
  softc_wf sc -> caps_valid sc ->
  lowest_perf sc <= amd_cppc_mhz_to_perf sc mhz <= highest_perf sc.
Proof.
  intros Hwf (Hh & Hn & Hl & Hord).
  destruct (Z.eq_dec (base_freq_mhz sc) 0) as [E | Hb].
  - unfold amd_cppc_mhz_to_perf. rewrite E. simpl. lia.
  - rewrite mhz_to_perf_clamp by assumption. unfold clamp. lia.
Qed.

Lemma mhz_to_perf_bounded_witness :
  softc_wf sc_1000 /\ caps_valid sc_1000 /\
  lowest_perf sc_1000 <= amd_cppc_mhz_to_perf sc_1000 (- 2 ^ 31)
    <= highest_perf sc_1000.
Proof.
  assert (Hv : caps_valid sc_1000) by (unfold caps_valid; simpl; lia).
  split; [exact sc_1000_wf |]. split; [exact Hv |].
  exact (mhz_to_perf_bounded sc_1000 (- 2 ^ 31) sc_1000_wf Hv).
Defined.

(** X5: the anchor is a fixed point of the converter: with validated
    capabilities and a positive anchor, nominal_perf converts to exactly
    base_freq_mhz and base_freq_mhz converts back to nominal_perf. *)
Theorem anchor_fixed_point (sc : amd_cppc_softc) :
  softc_wf sc -> caps_valid sc -> 0 < base_freq_mhz sc ->
  amd_cppc_perf_to_mhz sc (nominal_perf sc) = base_freq_mhz sc /\
  amd_cppc_mhz_to_perf sc (base_freq_mhz sc) = nominal_perf sc.
Proof.
  intros Hwf (Hh & Hn & Hl & Hord) Hb.
  pose proof Hwf as W. destruct W. unfold_ranges.
  assert (Hq : base_freq_mhz sc * nominal_perf sc / nominal_perf sc
               = base_freq_mhz sc) by (apply Z.div_mul; lia).
  assert (Hq' : base_freq_mhz sc * nominal_perf sc / base_freq_mhz sc
                = nominal_perf sc)
    by (rewrite Z.mul_comm; apply Z.div_mul; lia).
  split.
  - rewrite perf_to_mhz_exact; unfold_ranges; try assumption; lia.
  - rewrite mhz_to_perf_exact; unfold_ranges; try assumption; try lia.
    rewrite Hq'. unfold clamp. lia.
Qed.

Lemma anchor_fixed_point_witness :
  softc_wf sc_ref /\ caps_valid sc_ref /\ 0 < base_freq_mhz sc_ref /\
  amd_cppc_perf_to_mhz sc_ref (nominal_perf sc_ref) = base_freq_mhz sc_ref.
Proof.
  assert (Hb : 0 < base_freq_mhz sc_ref) by (simpl; lia).
  split; [exact sc_ref_wf |]. split; [exact sc_ref_valid |].
  split; [exact Hb |].
  exact (proj1 (anchor_fixed_point sc_ref sc_ref_wf sc_ref_valid Hb)).
Defined.

(** When [nominal_perf] divides the anchor a level survives the round
    trip. *)
Lemma level_round_trip_exact (sc : amd_cppc_softc) (p : Z) :
  softc_wf sc -> caps_valid sc -> 0 < base_freq_mhz sc ->
  base_freq_mhz sc * highest_perf sc / nominal_perf sc <= INT_MAX ->
  lowest_perf sc <= p <= highest_perf sc ->
  base_freq_mhz sc mod nominal_perf sc = 0 ->
  amd_cppc_mhz_to_perf sc (amd_cppc_perf_to_mhz sc p) = p.
Proof.
  intros Hwf (Hh & Hn & Hl & Hord) Hb Hfit Hp Hdiv.
  pose proof Hwf as W. destruct W. unfold_ranges.
  assert (Hnpos : 0 < nominal_perf sc) by lia.
  apply (Z.div_exact _ _ Hn) in Hdiv.
  set (k := base_freq_mhz sc / nominal_perf sc) in *.
  assert (Hk : 0 < k) by nia.
  pose proof (div_bounds (base_freq_mhz sc * highest_perf sc)
                (nominal_perf sc) Hnpos) as Dh.
  assert (Hf : base_freq_mhz sc * p / nominal_perf sc = k * p).
  { rewrite Hdiv. replace (nominal_perf sc * k * p)
      with (k * p * nominal_perf sc) by ring. apply Z.div_mul. lia. }
  assert (Hq : k * p * nominal_perf sc / base_freq_mhz sc = p).
  { rewrite Hdiv. replace (k * p * nominal_perf sc)
      with (p * (nominal_perf sc * k)) by ring. apply Z.div_mul. nia. }
  assert (E1 : amd_cppc_perf_to_mhz sc p = k * p).
  { rewrite <- Hf. apply perf_to_mhz_exact; unfold_ranges; try assumption;
      try lia. rewrite Hf. nia. }
  assert (E2 : amd_cppc_mhz_to_perf sc (k * p)
               = clamp (lowest_perf sc) (highest_perf sc)
                       (k * p * nominal_perf sc / base_freq_mhz sc)).
  { apply mhz_to_perf_exact; unfold_ranges; try assumption; try lia;
      rewrite ?Hq; nia. }
  rewrite E1, E2, Hq. unfold clamp. lia.
Qed.

(** X6: a level converted to MHz and back loses at most one level: with
    validated capabilities, 0 < nominal_perf <= base_freq_mhz and MHz
    values that fit an int, every level p between lowest_perf and
    highest_perf comes back as p or p - 1, never below lowest_perf; it
    comes back as p itself when nominal_perf divides base_freq_mhz. *)
Theorem perf_round_trip (sc : amd_cppc_softc) (p : Z) :
  softc_wf sc -> caps_valid sc ->
  nominal_perf sc <= base_freq_mhz sc ->
  base_freq_mhz sc * highest_perf sc / nominal_perf sc <= INT_MAX ->
  lowest_perf sc <= p <= highest_perf sc ->
  let p' := amd_cppc_mhz_to_perf sc (amd_cppc_perf_to_mhz sc p) in
  p - 1 <= p' <= p /\ lowest_perf sc <= p' /\
  (base_freq_mhz sc mod nominal_perf sc = 0 -> p' = p).
Proof.
  intros Hwf (Hh & Hn & Hl & Hord) Hnb Hfit Hp p'. subst p'.
  pose proof Hwf as W. destruct W. unfold_ranges.
  assert (Hnpos : 0 < nominal_perf sc) by lia.
  assert (Hb : 0 < base_freq_mhz sc) by lia.
  pose proof (div_bounds (base_freq_mhz sc * highest_perf sc)
                (nominal_perf sc) Hnpos) as Dh.
  pose proof (div_bounds (base_freq_mhz sc * p) (nominal_perf sc) Hnpos) as Dp.
  assert (Hf : amd_cppc_perf_to_mhz sc p
               = base_freq_mhz sc * p / nominal_perf sc).
  { apply perf_to_mhz_exact; unfold_ranges; try assumption; try lia. nia. }
  rewrite Hf.
  set (f := base_freq_mhz sc * p / nominal_perf sc) in *.
  assert (Hf0 : 0 <= f) by nia.
  assert (Hf1 : f <= 2 ^ 31 - 1) by nia.
  pose proof (div_bounds (f * nominal_perf sc) (base_freq_mhz sc) Hb) as Dq.
  rewrite mhz_to_perf_exact; unfold_ranges; try assumption; try lia;
    [| nia].
  set (q := f * nominal_perf sc / base_freq_mhz sc) in *.
  assert (Hq : p - 1 <= q <= p) by nia.
  unfold clamp. split; [lia |]. split; [lia |].
  intros Hdiv.
  assert (Hex : f * nominal_perf sc = base_freq_mhz sc * p).
  { apply (Z.div_exact _ _ Hn) in Hdiv.
    set (k := base_freq_mhz sc / nominal_perf sc) in *.
    assert (Hfk : f = k * p) by nia.
    rewrite Hfk, Hdiv. ring. }
  assert (q = p) by (subst q; rewrite Hex, Z.mul_comm; apply Z.div_mul; lia).
  lia.
Qed.


Lemma perf_round_trip_witness :
  softc_wf sc_thirds /\ caps_valid sc_thirds /\
  nominal_perf sc_thirds <= base_freq_mhz sc_thirds /\
  base_freq_mhz sc_thirds * highest_perf sc_thirds / nominal_perf sc_thirds
    <= INT_MAX /\
  lowest_perf sc_thirds <= 2 <= highest_perf sc_thirds /\
  amd_cppc_perf_to_mhz sc_thirds 2 = 666 /\
  amd_cppc_mhz_to_perf sc_thirds 666 = 1 /\
  2 - 1 <= amd_cppc_mhz_to_perf sc_thirds (amd_cppc_perf_to_mhz sc_thirds 2) <= 2.
Proof.
  assert (Hwf : softc_wf sc_thirds)
    by (constructor; unfold is_uint8, is_int; simpl; lia).
  assert (Hv : caps_valid sc_thirds) by (unfold caps_valid; simpl; lia).
  assert (Hnb : nominal_perf sc_thirds <= base_freq_mhz sc_thirds)
    by (simpl; lia).
  assert (Hfit : base_freq_mhz sc_thirds * highest_perf sc_thirds
                 / nominal_perf sc_thirds <= INT_MAX)
    by (vm_compute; discriminate).
  assert (Hp : lowest_perf sc_thirds <= 2 <= highest_perf sc_thirds)
    by (simpl; lia).
  split; [exact Hwf |]. split; [exact Hv |]. split; [exact Hnb |].
  split; [exact Hfit |]. split; [exact Hp |].
  split; [reflexivity |]. split; [reflexivity |].
  exact (proj1 (perf_round_trip sc_thirds 2 Hwf Hv Hnb Hfit Hp)).
Defined.

(** ** Enable and disable *)

Lemma land_bit0 val : Z.land val AMD_CPPC_ENABLE_BIT = Z.b2z (Z.testbit val 0).
Proof.
  change AMD_CPPC_ENABLE_BIT with (Z.ones 1).
  rewrite Z.land_ones by lia. change (2 ^ 1) with 2.
  symmetry. apply Z.bit0_mod.
Qed.

Lemma lor_bit0_set val :
  Z.land (Z.lor val AMD_CPPC_ENABLE_BIT) AMD_CPPC_ENABLE_BIT <> 0.
Proof.
  rewrite land_bit0, Z.lor_spec. change (Z.testbit AMD_CPPC_ENABLE_BIT 0) with true.
  rewrite Bool.orb_true_r. discriminate.
Qed.

Lemma lor_bit0_same val :
  Z.land val AMD_CPPC_ENABLE_BIT <> 0 -> Z.lor val AMD_CPPC_ENABLE_BIT = val.
Proof.
  rewrite land_bit0. intros Hb.
  apply Z.bits_inj'. intros i Hi. rewrite Z.lor_spec.
  destruct (Z.eq_dec i 0) as [-> | Hne].
  - destruct (Z.testbit val 0); [reflexivity | now elim Hb].
  - change AMD_CPPC_ENABLE_BIT with (2 ^ 0).
    rewrite Z.pow2_bits_false by lia. apply Bool.orb_false_r.
Qed.

Lemma rdmsr_enable hw : rdmsr hw MSR_AMD_CPPC_ENABLE = msr_enable hw.
Proof. reflexivity. Qed.

Lemma enable_run sc hw :
  amd_cppc_enable sc hw =
  if Z.land (msr_enable hw) AMD_CPPC_ENABLE_BIT =? 0 then
    if enable_latches hw
    then (0, set_cppc_enabled sc true,
          mk_machine (msr_cap1 hw) (Z.lor (msr_enable hw) AMD_CPPC_ENABLE_BIT)
                     (msr_req hw) (enable_latches hw))
    else (ENXIO, sc, hw)
  else (0, set_cppc_enabled sc true, hw).
Proof.
  unfold amd_cppc_enable, bind, amd_cppc_rdmsr, amd_cppc_wrmsr, ret.
  rewrite rdmsr_enable.
  destruct (Z.eqb_spec (Z.land (msr_enable hw) AMD_CPPC_ENABLE_BIT) 0)
    as [E | E]; [| reflexivity].
  rewrite rdmsr_enable.
  replace (wrmsr hw MSR_AMD_CPPC_ENABLE
             (Z.lor (msr_enable hw) AMD_CPPC_ENABLE_BIT))
    with (if enable_latches hw
          then mk_machine (msr_cap1 hw)
                 (Z.lor (msr_enable hw) AMD_CPPC_ENABLE_BIT)
                 (msr_req hw) (enable_latches hw)
          else hw) by reflexivity.
  destruct (enable_latches hw); cbn [msr_enable].
  - destruct (Z.eqb_spec
                (Z.land (Z.lor (msr_enable hw) AMD_CPPC_ENABLE_BIT)
                        AMD_CPPC_ENABLE_BIT) 0) as [E' | _];
      [now apply lor_bit0_set in E' | reflexivity].
  - destruct (Z.eqb_spec (Z.land (msr_enable hw) AMD_CPPC_ENABLE_BIT) 0);
      [reflexivity | contradiction].
Qed.

(** X7: enable succeeds exactly when the enable bit is already set or the
    hardware accepts the write.  On success it sets only the enabled flag
    of the softc and only bit 0 of the enable register; on failure it
    returns ENXIO and changes neither the softc nor the MSR file.  It never
    writes the request register. *)
Theorem enable_outcome (sc : amd_cppc_softc) (hw : machine) :
  let r := amd_cppc_enable sc hw in
  (fst (fst r) = 0 <->
   Z.land (msr_enable hw) AMD_CPPC_ENABLE_BIT <> 0 \/ enable_latches hw = true) /\
  (fst (fst r) = 0 ->
   snd (fst r) = set_cppc_enabled sc true /\
   msr_enable (snd r) = Z.lor (msr_enable hw) AMD_CPPC_ENABLE_BIT /\
   Z.land (msr_enable (snd r)) AMD_CPPC_ENABLE_BIT <> 0) /\
  (fst (fst r) <> 0 -> r = (ENXIO, sc, hw)) /\
  msr_req (snd r) = msr_req hw /\ msr_cap1 (snd r) = msr_cap1 hw.
Proof.
  intros r. subst r. rewrite enable_run.
  destruct (Z.eqb_spec (Z.land (msr_enable hw) AMD_CPPC_ENABLE_BIT) 0)
    as [E | E]; [destruct (enable_latches hw) eqn:L |]; cbn [fst snd msr_enable
      msr_req msr_cap1]; unfold ENXIO.
  - split; [split; auto |]. split; [intros _ | split; [intros H; now elim H |]].
    + split; [reflexivity |]. split; [reflexivity | apply lor_bit0_set].
    + split; reflexivity.
  - split; [split; [discriminate | intros [H | H]; [now elim H | discriminate]] |].
    split; [discriminate |]. split; [reflexivity | split; reflexivity].
  - split; [split; auto |]. split; [intros _ | split; [intros H; now elim H |]].
    + split; [reflexivity |]. split; [symmetry; now apply lor_bit0_same | exact E].
    + split; reflexivity.
Qed.

Lemma enable_outcome_witness :
  fst (fst (amd_cppc_enable sc_zero hw_ref)) = 0 /\
  snd (fst (amd_cppc_enable sc_zero hw_ref)) = set_cppc_enabled sc_zero true /\
  Z.land (msr_enable (snd (amd_cppc_enable sc_zero hw_ref)))
         AMD_CPPC_ENABLE_BIT <> 0.
Proof.
  assert (H : fst (fst (amd_cppc_enable sc_zero hw_ref)) = 0) by reflexivity.
  split; [exact H |].
  destruct (proj1 (proj2 (enable_outcome sc_zero hw_ref)) H) as (H1 & _ & H3).
  split; [exact H1 | exact H3].
Defined.

(** X8: disable always leaves the instance disabled, never changes any
    other field of the softc, and is idempotent: a second disable changes
    neither the softc nor the MSR file. *)
Theorem disable_idempotent (sc : amd_cppc_softc) (hw : machine) :
  let sc1 := fst (amd_cppc_disable sc hw) in
  let hw1 := snd (amd_cppc_disable sc hw) in
  sc1 = set_cppc_enabled sc false /\
  amd_cppc_disable sc1 hw1 = (sc1, hw1) /\
  msr_cap1 hw1 = msr_cap1 hw /\
  (cppc_enabled sc = false -> hw1 = hw).
Proof.
  intros sc1 hw1. subst sc1 hw1.
  destruct (cppc_enabled sc) eqn:E.
  - rewrite (disable_run sc hw E). cbn [fst snd].
    split; [reflexivity |]. split; [apply disable_noop; reflexivity |].
    split; [| discriminate].
    unfold wrmsr. simpl. destruct (enable_latches hw); reflexivity.
  - rewrite (disable_noop sc hw E). cbn [fst snd].
    split; [destruct sc; simpl in *; now subst |].
    split; [now apply disable_noop |]. split; [reflexivity | reflexivity].
Qed.

Lemma disable_idempotent_witness :
  cppc_enabled sc_zero = false /\
  snd (amd_cppc_disable sc_zero hw_ref) = hw_ref.
Proof.
  assert (E : cppc_enabled sc_zero = false) by reflexivity.
  split; [exact E |].
  exact (proj2 (proj2 (proj2 (disable_idempotent sc_zero hw_ref))) E).
Defined.

(** ** The invariant of an attached device *)

Lemma inv_caps_stored sc hw :
  driver_inv sc hw -> caps_stored sc (msr_cap1 hw) = sc.
Proof.
  intros I. pose proof (inv_cap1 sc hw I) as H.
  destruct sc. unfold caps_stored, set_caps. simpl in *.
  inversion H. reflexivity.
Qed.

Lemma wrmsr_req_other hw val :
  msr_enable (wrmsr hw MSR_AMD_CPPC_REQ val) = msr_enable hw /\
  msr_cap1 (wrmsr hw MSR_AMD_CPPC_REQ val) = msr_cap1 hw /\
  enable_latches (wrmsr hw MSR_AMD_CPPC_REQ val) = enable_latches hw.
Proof. repeat split; reflexivity. Qed.

Lemma inv_set sc hw cf :
  driver_inv sc hw ->
  driver_inv (snd (fst (amd_cppc_set sc cf hw))) (snd (amd_cppc_set sc cf hw)).
Proof.
  intros I. destruct (cppc_enabled sc) eqn:E.
  2:{ rewrite (set_disabled sc cf hw E). exact I. }
  rewrite (set_enabled sc cf hw E). cbn [fst snd].
  pose proof (mhz_to_perf_in_caps sc (freq cf) (inv_wf _ _ I) (inv_caps _ _ I))
    as Hp.
  destruct I as [Hwf Hcaps Hcap1 Hbase Hmin Hmax Hdes Hepp Hreq Hcan Hon Hoff].
  pose proof Hwf as W. destruct W. unfold_ranges.
  constructor; cbn; try assumption; try reflexivity.
  - constructor; cbn; unfold_ranges; try assumption; lia.
  - intros _. split; [exact (proj1 (Hon E)) | reflexivity].
  - rewrite E. discriminate.
Qed.

(** The state after the sysctl handler: unchanged, or as after a write of
    a value in 0..100. *)
Lemma sysctl_state sc req hw :
  let r := amd_cppc_sysctl_epp sc req hw in
  (snd (fst r), snd r) = (sc, hw) \/
  exists e, 0 <= e <= 100 /\
    snd (fst r) = set_epp sc e (amd_cppc_epp_to_hw e) /\
    snd r = if cppc_enabled sc
            then wrmsr hw MSR_AMD_CPPC_REQ
                   (AMD_CPPC_REQ_BUILD (req_max_perf sc) (req_min_perf sc)
                                       (req_des_perf sc) (amd_cppc_epp_to_hw e))
            else hw.
Proof.
  intros r. subst r. destruct req as [[e |] err].
  2:{ left. rewrite sysctl_epp_read. reflexivity. }
  unfold amd_cppc_sysctl_epp, sysctl_handle_int. cbn [copy_error newptr].
  destruct (Z.eqb_spec err 0) as [-> | Hne].
  - cbn [negb orb Z.eqb].
    destruct (Z.ltb_spec e 0); [left; reflexivity |].
    destruct (Z.gtb_spec e 100); [left; reflexivity |].
    right. exists e. split; [lia |]. cbn [orb].
    unfold bind. cbn. destruct (cppc_enabled sc); split; reflexivity.
  - left. destruct (Z.eqb_spec err 0); [contradiction | reflexivity].
Qed.

Lemma inv_sysctl sc hw req :
  driver_inv sc hw ->
  driver_inv (snd (fst (amd_cppc_sysctl_epp sc req hw)))
             (snd (amd_cppc_sysctl_epp sc req hw)).
Proof.
  intros I.
  destruct (sysctl_state sc req hw) as [Heq | (e & He & Hsc & Hhw)].
  - pose proof (f_equal fst Heq) as H1. pose proof (f_equal snd Heq) as H2.
    cbn [fst snd] in H1, H2. rewrite H1, H2. exact I.
  - rewrite Hsc, Hhw.
    destruct I as [Hwf Hcaps Hcap1 Hbase Hmin Hmax Hdes Hepp Hreq Hcan Hon Hoff].
    pose proof Hwf as W. destruct W.
    pose proof (epp_to_hw_byte e) as Hb.
    constructor; cbn; try assumption; try reflexivity.
    + constructor; cbn; try assumption. unfold is_int. lia.
    + destruct (cppc_enabled sc); assumption.
    + destruct (cppc_enabled sc); assumption.
    + intros E. rewrite E. split; [exact (proj1 (Hon E)) | reflexivity].
    + intros E. rewrite E. exact (Hoff E).
Qed.

Lemma inv_disable sc hw :
  driver_inv sc hw ->
  driver_inv (fst (amd_cppc_disable sc hw)) (snd (amd_cppc_disable sc hw)).
Proof.
  intros I. destruct (cppc_enabled sc) eqn:E.
  2:{ rewrite (disable_noop sc hw E). exact I. }
  rewrite (disable_run sc hw E). cbn [fst snd].
  destruct I as [Hwf Hcaps Hcap1 Hbase Hmin Hmax Hdes Hepp Hreq Hcan Hon Hoff].
  pose proof Hwf as W. destruct W.
  destruct (Hon E) as [Hbit _].
  constructor; try (cbn; assumption); try (cbn; reflexivity).
  - constructor; cbn; assumption.
  - unfold wrmsr. simpl. destruct (enable_latches hw); exact Hcap1.
  - unfold wrmsr. simpl. destruct (enable_latches hw) eqn:L; simpl.
    + right. reflexivity.
    + left. exact Hbit.
  - cbn. discriminate.
  - intros _. apply wrmsr_enable_req.
Qed.

(** From a state that satisfies the invariant resume cannot fail. *)
Lemma resume_run_inv sc hw :
  driver_inv sc hw ->
  amd_cppc_resume sc hw =
  (0, set_cppc_enabled sc true,
   mk_machine (msr_cap1 hw) (Z.lor (msr_enable hw) AMD_CPPC_ENABLE_BIT)
              (AMD_CPPC_REQ_BUILD (req_max_perf sc) (req_min_perf sc)
                                  (req_des_perf sc) (req_epp sc))
              (enable_latches hw)).
Proof.
  intros I. unfold amd_cppc_resume, bind. rewrite read_caps_run.
  rewrite (inv_caps_stored sc hw I).
  rewrite (proj2 (caps_error_ok sc) (inv_caps _ _ I)). cbn [Z.eqb negb].
  rewrite enable_run.
  destruct (Z.eqb_spec (Z.land (msr_enable hw) AMD_CPPC_ENABLE_BIT) 0)
    as [E | E].
  - destruct (inv_can_enable _ _ I) as [Hbit | L]; [contradiction |].
    rewrite L. cbn [Z.eqb negb]. rewrite write_req_run. reflexivity.
  - cbn [Z.eqb negb]. rewrite write_req_run. unfold ret.
    rewrite (lor_bit0_same _ E). destruct hw; reflexivity.
Qed.

Lemma inv_resume sc hw :
  driver_inv sc hw ->
  driver_inv (snd (fst (amd_cppc_resume sc hw))) (snd (amd_cppc_resume sc hw)).
Proof.
  intros I. rewrite (resume_run_inv sc hw I). cbn [fst snd].
  destruct I as [Hwf Hcaps Hcap1 Hbase Hmin Hmax Hdes Hepp Hreq Hcan Hon Hoff].
  pose proof Hwf as W. destruct W.
  constructor; try (cbn; assumption); try (cbn; reflexivity).
  - constructor; cbn; assumption.
  - cbn. left. apply lor_bit0_set.
  - intros _. cbn. split; [apply lor_bit0_set | reflexivity].
  - cbn. discriminate.
Qed.

Lemma inv_run_op o sc hw :
  is_call o = true -> driver_inv sc hw ->
  driver_inv (fst (run_op o (sc, hw))) (snd (run_op o (sc, hw))).
Proof.
  intros Hc I. destruct o as [cf | req | | | c | h]; cbn [run_op];
    try discriminate Hc.
  - pose proof (inv_set sc hw cf I) as H.
    destruct (amd_cppc_set sc cf hw) as [[e sc'] hw']. exact H.
  - pose proof (inv_sysctl sc hw req I) as H.
    destruct (amd_cppc_sysctl_epp sc req hw) as [[e sc'] hw']. exact H.
  - pose proof (inv_disable sc hw I) as H.
    unfold amd_cppc_suspend, bind, ret.
    destruct (amd_cppc_disable sc hw) as [sc' hw']. exact H.
  - pose proof (inv_resume sc hw I) as H.
    destruct (amd_cppc_resume sc hw) as [[e sc'] hw']. exact H.
Qed.

Lemma inv_run_ops ops :
  calls_only ops ->
  forall sc hw,
    driver_inv sc hw ->
    driver_inv (fst (run_ops ops (sc, hw))) (snd (run_ops ops (sc, hw))).
Proof.
  unfold run_ops, calls_only.
  induction ops as [| o ops IH]; intros Hc sc hw I; cbn [fold_left].
  - exact I.
  - inversion Hc as [| ? ? Ho Hc']. subst.
    pose proof (inv_run_op o sc hw Ho I) as H.
    destruct (run_op o (sc, hw)) as [sc' hw']. now apply IH.
Qed.

(** *** Under interference of the platform *)

Lemma inv_consistent sc hw : driver_inv sc hw -> driver_consistent sc hw.
Proof.
  intros [Hwf Hcaps Hcap1 Hbase Hmin Hmax Hdes Hepp Hreq Hcan Hon Hoff].
  constructor; assumption.
Qed.

Lemma mhz_to_perf_byte sc mhz :
  softc_wf sc -> base_freq_mhz sc <> 0 ->
  is_uint8 (amd_cppc_mhz_to_perf sc mhz).
Proof.
  intros Hwf Hb. unfold amd_cppc_mhz_to_perf.
  destruct (Z.eqb_spec (base_freq_mhz sc) 0); [contradiction |].
  unfold is_uint8, to_uint8. apply Z.mod_pos_bound. lia.
Qed.

Lemma con_set sc hw cf :
  driver_consistent sc hw ->
  driver_consistent (snd (fst (amd_cppc_set sc cf hw)))
                    (snd (amd_cppc_set sc cf hw)).
Proof.
  intros C. destruct (cppc_enabled sc) eqn:E.
  2:{ rewrite (set_disabled sc cf hw E). exact C. }
  rewrite (set_enabled sc cf hw E). cbn [fst snd].
  destruct C as [Hwf Hbase Hdes Hepp Hreq Hon].
  pose proof (mhz_to_perf_byte sc (freq cf) Hwf Hbase) as Hp.
  pose proof Hwf as W. destruct W.
  constructor; cbn; try assumption; try reflexivity.
  - constructor; cbn; try assumption. unfold is_uint8. lia.
  - intros _. split; [exact (proj1 (Hon E)) | reflexivity].
Qed.

Lemma con_sysctl sc hw req :
  driver_consistent sc hw ->
  driver_consistent (snd (fst (amd_cppc_sysctl_epp sc req hw)))
                    (snd (amd_cppc_sysctl_epp sc req hw)).
Proof.
  intros C.
  destruct (sysctl_state sc req hw) as [Heq | (e & He & Hsc & Hhw)].
  - pose proof (f_equal fst Heq) as H1. pose proof (f_equal snd Heq) as H2.
    cbn [fst snd] in H1, H2. rewrite H1, H2. exact C.
  - rewrite Hsc, Hhw.
    destruct C as [Hwf Hbase Hdes Hepp Hreq Hon].
    pose proof Hwf as W. destruct W.
    pose proof (epp_to_hw_byte e) as Hb.
    constructor; cbn; try assumption; try reflexivity.
    + constructor; cbn; try assumption. unfold is_int. lia.
    + intros E. rewrite E. split; [exact (proj1 (Hon E)) | reflexivity].
Qed.

Lemma con_disable sc hw :
  driver_consistent sc hw ->
  driver_consistent (fst (amd_cppc_disable sc hw)) (snd (amd_cppc_disable sc hw)).
Proof.
  intros C. destruct (cppc_enabled sc) eqn:E.
  2:{ rewrite (disable_noop sc hw E). exact C. }
  rewrite (disable_run sc hw E). cbn [fst snd].
  destruct C as [Hwf Hbase Hdes Hepp Hreq Hon].
  pose proof Hwf as W. destruct W.
  constructor; try (cbn; assumption).
  - constructor; cbn; assumption.
  - cbn. discriminate.
Qed.

(** [amd_cppc_resume] without the plumbing. *)
Lemma resume_run sc hw :
  let sc1 := caps_stored sc (msr_cap1 hw) in
  amd_cppc_resume sc hw =
  if caps_error sc1 =? 0 then
    if Z.land (msr_enable hw) AMD_CPPC_ENABLE_BIT =? 0 then
      if enable_latches hw
      then (0, set_cppc_enabled sc1 true,
            mk_machine (msr_cap1 hw)
              (Z.lor (msr_enable hw) AMD_CPPC_ENABLE_BIT)
              (AMD_CPPC_REQ_BUILD (req_max_perf sc) (req_min_perf sc)
                                  (req_des_perf sc) (req_epp sc))
              (enable_latches hw))
      else (ENXIO, sc1, hw)
    else (0, set_cppc_enabled sc1 true,
          mk_machine (msr_cap1 hw) (msr_enable hw)
            (AMD_CPPC_REQ_BUILD (req_max_perf sc) (req_min_perf sc)
                                (req_des_perf sc) (req_epp sc))
            (enable_latches hw))
  else (ENXIO, sc1, hw).
Proof.
  intros sc1. unfold amd_cppc_resume, bind. rewrite read_caps_run. fold sc1.
  pose proof (caps_error_cases sc1) as [Hc | Hc]; rewrite Hc; cbn [Z.eqb negb];
    [| reflexivity].
  rewrite enable_run.
  destruct (Z.land (msr_enable hw) AMD_CPPC_ENABLE_BIT =? 0);
    [destruct (enable_latches hw) |]; cbn [Z.eqb negb]; reflexivity.
Qed.

Lemma con_resume sc hw :
  driver_consistent sc hw ->
  driver_consistent (snd (fst (amd_cppc_resume sc hw)))
                    (snd (amd_cppc_resume sc hw)).
Proof.
  intros C. rewrite resume_run. cbv zeta.
  destruct C as [Hwf Hbase Hdes Hepp Hreq Hon].
  pose proof Hwf as W. destruct W.
  assert (Hwf1 : forall b,
            softc_wf (set_cppc_enabled (caps_stored sc (msr_cap1 hw)) b)).
  { intros b. constructor; cbn; try assumption; apply land_ff_range. }
  assert (Hstay : driver_consistent (caps_stored sc (msr_cap1 hw)) hw).
  { constructor; try (cbn; assumption).
    constructor; cbn; try assumption; apply land_ff_range. }
  destruct (caps_error (caps_stored sc (msr_cap1 hw)) =? 0);
    [| exact Hstay].
  destruct (Z.eqb_spec (Z.land (msr_enable hw) AMD_CPPC_ENABLE_BIT) 0)
    as [E | E]; [destruct (enable_latches hw); [| exact Hstay] |];
    cbn [fst snd].
  - constructor; try (cbn; assumption); [apply Hwf1 |].
    intros _. cbn. split; [apply lor_bit0_set | reflexivity].
  - constructor; try (cbn; assumption); [apply Hwf1 |].
    intros _. cbn. split; [exact E | reflexivity].
Qed.

Lemma con_run_op o sc hw :
  driver_consistent sc hw ->
  driver_consistent (fst (run_op o (sc, hw))) (snd (run_op o (sc, hw))).
Proof.
  intros C. destruct o as [cf | req | | | c | h]; cbn [run_op].
  - pose proof (con_set sc hw cf C) as H.
    destruct (amd_cppc_set sc cf hw) as [[e sc'] hw']. exact H.
  - pose proof (con_sysctl sc hw req C) as H.
    destruct (amd_cppc_sysctl_epp sc req hw) as [[e sc'] hw']. exact H.
  - pose proof (con_disable sc hw C) as H.
    unfold amd_cppc_suspend, bind, ret.
    destruct (amd_cppc_disable sc hw) as [sc' hw']. exact H.
  - pose proof (con_resume sc hw C) as H.
    destruct (amd_cppc_resume sc hw) as [[e sc'] hw']. exact H.
  - cbn [fst snd]. destruct C as [Hwf Hbase Hdes Hepp Hreq Hon].
    constructor; assumption.
  - destruct (cppc_enabled sc) eqn:E; cbn [fst snd]; [exact C |].
    destruct C as [Hwf Hbase Hdes Hepp Hreq Hon].
    constructor; try assumption. intros E'. congruence.
Qed.

Lemma con_run_ops ops :
  forall sc hw,
    driver_consistent sc hw ->
    driver_consistent (fst (run_ops ops (sc, hw))) (snd (run_ops ops (sc, hw))).
Proof.
  unfold run_ops.
  induction ops as [| o ops IH]; intros sc hw C; cbn [fold_left].
  - exact C.
  - pose proof (con_run_op o sc hw C) as H.
    destruct (run_op o (sc, hw)) as [sc' hw']. now apply IH.
Qed.

(** [amd_cppc_attach] without the plumbing. *)
Lemma attach_run sc d unit tsc_freq registered hw :
  let sc0 := set_identity sc d unit (to_int (tsc_freq / 1000000)) in
  let sc1 := caps_stored sc0 (msr_cap1 hw) in
  let sc2 := set_req_perf (set_epp sc1 50 (amd_cppc_epp_to_hw 50))
               (highest_perf sc1) (lowest_perf sc1) 0 in
  amd_cppc_attach sc d unit tsc_freq registered hw =
  if to_int (tsc_freq / 1000000) =? 0 then (ENXIO, sc0, hw)
  else if caps_error sc1 =? 0 then
    if Z.land (msr_enable hw) AMD_CPPC_ENABLE_BIT =? 0 then
      if enable_latches hw
      then (registered, set_cppc_enabled sc2 true,
            mk_machine (msr_cap1 hw)
              (Z.lor (msr_enable hw) AMD_CPPC_ENABLE_BIT)
              (AMD_CPPC_REQ_BUILD (req_max_perf sc2) (req_min_perf sc2)
                                  (req_des_perf sc2) (req_epp sc2))
              (enable_latches hw))
      else (ENXIO, sc2, hw)
    else (registered, set_cppc_enabled sc2 true,
          mk_machine (msr_cap1 hw) (msr_enable hw)
            (AMD_CPPC_REQ_BUILD (req_max_perf sc2) (req_min_perf sc2)
                                (req_des_perf sc2) (req_epp sc2))
            (enable_latches hw))
  else (ENXIO, sc1, hw).
Proof.
  intros sc0 sc1 sc2. unfold amd_cppc_attach. fold sc0.
  cbn [base_freq_mhz set_identity]. subst sc0. cbn [base_freq_mhz set_identity].
  destruct (to_int (tsc_freq / 1000000) =? 0); [reflexivity |].
  unfold bind. rewrite read_caps_run. fold sc1.
  pose proof (caps_error_cases sc1) as [Hc | Hc]; rewrite Hc; cbn [Z.eqb negb];
    [| reflexivity].
  change (set_req_perf (set_epp sc1 50 (amd_cppc_epp_to_hw 50))
            (highest_perf (set_epp sc1 50 (amd_cppc_epp_to_hw 50)))
            (lowest_perf (set_epp sc1 50 (amd_cppc_epp_to_hw 50))) 0)
    with sc2.
  rewrite enable_run.
  destruct (Z.land (msr_enable hw) AMD_CPPC_ENABLE_BIT =? 0);
    [destruct (enable_latches hw) |]; cbn [Z.eqb negb]; reflexivity.
Qed.

(** The three ways attach can end. *)
Lemma attach_cases sc d unit tsc_freq registered hw :
  let r := amd_cppc_attach sc d unit tsc_freq registered hw in
  (fst (fst r) = ENXIO /\ snd r = hw /\
   cppc_enabled (snd (fst r)) = cppc_enabled sc) \/
  (fst (fst r) = registered /\
   driver_inv (snd (fst r)) (snd r) /\
   cppc_enabled (snd (fst r)) = true /\
   req_max_perf (snd (fst r)) = highest_perf (snd (fst r)) /\
   epp (snd (fst r)) = 50 /\
   base_freq_mhz (snd (fst r)) = to_int (tsc_freq / 1000000) /\
   (dev (snd (fst r)), cpu_id (snd (fst r))) = (d, unit)).
Proof.
  intros r. subst r. rewrite attach_run. cbv zeta.
  set (sc1 := caps_stored (set_identity sc d unit (to_int (tsc_freq / 1000000)))
                (msr_cap1 hw)).
  set (sc2 := set_req_perf (set_epp sc1 50 (amd_cppc_epp_to_hw 50))
                (highest_perf sc1) (lowest_perf sc1) 0).
  destruct (Z.eqb_spec (to_int (tsc_freq / 1000000)) 0) as [E0 | Hbase].
  { left. cbn. repeat split; reflexivity. }
  destruct (Z.eqb_spec (caps_error sc1) 0) as [Hc | Hc].
  2:{ left. cbn. repeat split; reflexivity. }
  apply caps_error_ok in Hc.
  destruct Hc as (Hh & Hn & Hl & Hord). cbn in Hh, Hn, Hl, Hord.
  assert (Hwf2 : softc_wf (set_cppc_enabled sc2 true)).
  { constructor; cbn; try apply land_ff_range; try apply to_int_range;
      unfold is_uint8, is_int; lia. }
  assert (Hinv : forall hw',
            msr_cap1 hw' = msr_cap1 hw ->
            Z.land (msr_enable hw') AMD_CPPC_ENABLE_BIT <> 0 ->
            msr_req hw' = AMD_CPPC_REQ_BUILD (req_max_perf sc2)
                            (req_min_perf sc2) (req_des_perf sc2) (req_epp sc2) ->
            driver_inv (set_cppc_enabled sc2 true) hw').
  { intros hw' H1 H2 H3.
    constructor; try (cbn; reflexivity); try (cbn; lia).
    - exact Hwf2.
    - unfold caps_valid. cbn. lia.
    - cbn. rewrite H1. reflexivity.
    - left. exact H2.
    - intros _. split; [exact H2 | exact H3]. }
  destruct (Z.eqb_spec (Z.land (msr_enable hw) AMD_CPPC_ENABLE_BIT) 0)
    as [E | E]; [destruct (enable_latches hw) eqn:L |].
  - right. cbn [fst snd]. split; [reflexivity |].
    split; [| cbn; repeat split; reflexivity].
    apply Hinv; [reflexivity | apply lor_bit0_set | reflexivity].
  - left. cbn. repeat split; reflexivity.
  - right. cbn [fst snd]. split; [reflexivity |].
    split; [| cbn; repeat split; reflexivity].
    apply Hinv; [reflexivity | exact E | reflexivity].
Qed.

Lemma inv_ref : driver_inv sc_ref hw_attached.
Proof.
  pose proof (attach_cases sc_zero 7 0 2000000000 0 hw_ref) as H.
  cbv zeta in H. rewrite attach_ref in H. cbn [fst snd] in H.
  destruct H as [(H & _) | (_ & H & _)]; [discriminate H | exact H].
Qed.


(** X10: every state reached from a successful attach by any sequence of
    set_target, sysctl, suspend and resume calls, interleaved with firmware
    changes of the capability register (at any time) and replacements of
    the whole MSR file by the platform (while suspended), is consistent:
    the softc fields are within their C types, the anchor is nonzero,
    req_des_perf is 0, the preference is in 0..100 and req_epp is its
    hardware value, and while enabled the enable bit is set and the request
    register holds exactly the request of the softc.  When the sequence
    has calls only, so that the platform leaves the MSR file alone, the
    full invariant holds as well: the capabilities are validated and are
    those of the capability register, req_min_perf = lowest_perf <=
    req_max_perf <= highest_perf, and while disabled the request register
    is zero. *)
Theorem attached_invariant (sc0 : amd_cppc_softc) (d unit tsc_freq registered : Z)
    (hw0 : machine) (ops : list driver_op) :
  fst (fst (amd_cppc_attach sc0 d unit tsc_freq registered hw0)) = 0 ->
  let st := run_ops ops
              (snd (fst (amd_cppc_attach sc0 d unit tsc_freq registered hw0)),
               snd (amd_cppc_attach sc0 d unit tsc_freq registered hw0)) in
  driver_consistent (fst st) (snd st) /\
  (calls_only ops -> driver_inv (fst st) (snd st)).
Proof.
  intros Hok st. subst st.
  assert (I : driver_inv
                (snd (fst (amd_cppc_attach sc0 d unit tsc_freq registered hw0)))
                (snd (amd_cppc_attach sc0 d unit tsc_freq registered hw0))).
  { destruct (attach_cases sc0 d unit tsc_freq registered hw0)
      as [(H & _) | (_ & I & _)]; [| exact I].
    rewrite Hok in H. discriminate H. }
  split.
  - apply con_run_ops. now apply inv_consistent.
  - intros Hc. now apply inv_run_ops.
Qed.

Lemma attached_invariant_witness :
  fst (fst (amd_cppc_attach sc_zero 7 0 2000000000 0 hw_ref)) = 0 /\
  calls_only [OpSet (cf_of_mhz 3000); OpSuspend;
              OpSysctl (mk_sysctl_req (Some 80) 0); OpResume] /\
  (let st := run_ops [OpSet (cf_of_mhz 3000); OpSuspend;
                      OpSysctl (mk_sysctl_req (Some 80) 0); OpResume]
               (snd (fst (amd_cppc_attach sc_zero 7 0 2000000000 0 hw_ref)),
                snd (amd_cppc_attach sc_zero 7 0 2000000000 0 hw_ref)) in
   driver_inv (fst st) (snd st)) /\
  (let st := run_ops [OpSuspend; OpFirmware cap1_lowered; OpResume]
               (snd (fst (amd_cppc_attach sc_zero 7 0 2000000000 0 hw_ref)),
                snd (amd_cppc_attach sc_zero 7 0 2000000000 0 hw_ref)) in
   driver_consistent (fst st) (snd st)).
Proof.
  assert (H : fst (fst (amd_cppc_attach sc_zero 7 0 2000000000 0 hw_ref)) = 0)
    by reflexivity.
  assert (Hc : calls_only [OpSet (cf_of_mhz 3000); OpSuspend;
                           OpSysctl (mk_sysctl_req (Some 80) 0); OpResume])
    by (repeat constructor).
  split; [exact H |]. split; [exact Hc |]. split.
  - exact (proj2 (attached_invariant sc_zero 7 0 2000000000 0 hw_ref
                    [OpSet (cf_of_mhz 3000); OpSuspend;
                     OpSysctl (mk_sysctl_req (Some 80) 0); OpResume] H) Hc).
  - exact (proj1 (attached_invariant sc_zero 7 0 2000000000 0 hw_ref
                    [OpSuspend; OpFirmware cap1_lowered; OpResume] H)).
Defined.

(** What resume does after the platform has moved.  With the highest level
    lowered to 150 while suspended, resume succeeds and writes the old
    request: level 180 in the max field, above the new highest level.
    With a capability value whose nominal level is 0, resume fails with
    ENXIO, stays disabled, and the softc keeps the rejected capabilities.
    With the enable bit lost and hardware that refuses the write, resume
    fails with ENXIO and the request register is not written. *)
Example resume_after_platform_moves :
  (let '(sc1, hw1) := run_ops [OpSuspend; OpFirmware cap1_lowered]
                        (sc_ref, hw_attached) in
   let '(err, sc2, hw2) := amd_cppc_resume sc1 hw1 in
   err = 0 /\ cppc_enabled sc2 = true /\ highest_perf sc2 = 150 /\
   req_max_perf sc2 = 180 /\
   Z.land (Z.shiftr (msr_req hw2) AMD_CPPC_MAX_PERF_SHIFT) 0xFF = 180) /\
  (let '(sc1, hw1) := run_ops [OpSuspend; OpFirmware cap1_no_nominal]
                        (sc_ref, hw_attached) in
   let '(err, sc2, hw2) := amd_cppc_resume sc1 hw1 in
   err = ENXIO /\ cppc_enabled sc2 = false /\ nominal_perf sc2 = 0 /\
   hw2 = hw1) /\
  (let '(sc1, hw1) := run_ops [OpSuspend;
                               OpReset (mk_machine cap1_ref 0 0 false)]
                        (sc_ref, hw_attached) in
   let '(err, sc2, hw2) := amd_cppc_resume sc1 hw1 in
   err = ENXIO /\ cppc_enabled sc2 = false /\ msr_req hw2 = 0).
Proof. vm_compute. repeat split; reflexivity. Qed.

(** X11: in a state that satisfies the invariant of an attached device and
    is enabled, the request register never asks for more than
    highest_perf or less than lowest_perf: its max field lies between the
    two, its min field is lowest_perf, its desired field is 0 and its EPP
    field is preference * 255 / 100. *)
Theorem request_within_caps (sc : amd_cppc_softc) (hw : machine) :
  driver_inv sc hw -> cppc_enabled sc = true ->
  lowest_perf sc
    <= Z.land (Z.shiftr (msr_req hw) AMD_CPPC_MAX_PERF_SHIFT) 0xFF
    <= highest_perf sc /\
  Z.land (Z.shiftr (msr_req hw) AMD_CPPC_MIN_PERF_SHIFT) 0xFF = lowest_perf sc /\
  Z.land (Z.shiftr (msr_req hw) AMD_CPPC_DES_PERF_SHIFT) 0xFF = 0 /\
  Z.land (Z.shiftr (msr_req hw) AMD_CPPC_EPP_PERF_SHIFT) 0xFF
    = epp sc * 255 / 100.
Proof.
  intros I E.
  destruct (inv_on _ _ I E) as [_ Hreq].
  pose proof (inv_wf _ _ I) as W. destruct W.
  pose proof (inv_max _ _ I) as Hmax. pose proof (inv_min _ _ I) as Hmin.
  pose proof (inv_des _ _ I) as Hdes. pose proof (inv_req_epp _ _ I) as Hre.
  pose proof (inv_epp _ _ I) as Hepp.
  rewrite epp_to_hw_clamped in Hre. unfold clamp in Hre.
  rewrite Z.max_r, Z.min_r in Hre by lia.
  rewrite Hreq, req_build_sum by assumption.
  unfold AMD_CPPC_MAX_PERF_SHIFT, AMD_CPPC_MIN_PERF_SHIFT,
    AMD_CPPC_DES_PERF_SHIFT, AMD_CPPC_EPP_PERF_SHIFT.
  rewrite !byte_at by lia. unfold_ranges.
  repeat split; Z.to_euclidean_division_equations; lia.
Qed.

Lemma request_within_caps_witness :
  driver_inv sc_ref hw_attached /\ cppc_enabled sc_ref = true /\
  lowest_perf sc_ref
    <= Z.land (Z.shiftr (msr_req hw_attached) AMD_CPPC_MAX_PERF_SHIFT) 0xFF
    <= highest_perf sc_ref.
Proof.
  assert (E : cppc_enabled sc_ref = true) by reflexivity.
  split; [exact inv_ref |]. split; [exact E |].
  exact (proj1 (request_within_caps sc_ref hw_attached inv_ref E)).
Defined.

(** X12: from any state that satisfies the invariant of an attached
    device, enabled or suspended, resume succeeds: it returns 0, sets the
    enabled flag, keeps every other field of the softc and leaves the
    request register holding the request of the softc. *)
Theorem resume_succeeds (sc : amd_cppc_softc) (hw : machine) :
  driver_inv sc hw ->
  let r := amd_cppc_resume sc hw in
  fst (fst r) = 0 /\
  snd (fst r) = set_cppc_enabled sc true /\
  msr_req (snd r) = AMD_CPPC_REQ_BUILD (req_max_perf sc) (req_min_perf sc)
                                       (req_des_perf sc) (req_epp sc) /\
  Z.land (msr_enable (snd r)) AMD_CPPC_ENABLE_BIT <> 0 /\
  msr_cap1 (snd r) = msr_cap1 hw.
Proof.
  intros I r. subst r. rewrite (resume_run_inv sc hw I). cbn.
  repeat split. apply lor_bit0_set.
Qed.

Lemma resume_succeeds_witness :
  driver_inv sc_ref hw_attached /\
  fst (fst (amd_cppc_resume sc_ref hw_attached)) = 0.
Proof.
  split; [exact inv_ref |].
  exact (proj1 (resume_succeeds sc_ref hw_attached inv_ref)).
Defined.

Lemma lor_land_mask val :
  is_uint64 val -> Z.land val AMD_CPPC_ENABLE_BIT <> 0 ->
  Z.lor (Z.land val (to_uint64 (Z.lnot AMD_CPPC_ENABLE_BIT))) AMD_CPPC_ENABLE_BIT
  = val.
Proof.
  unfold is_uint64. intros Hr Hb. rewrite land_bit0 in Hb.
  change (to_uint64 (Z.lnot AMD_CPPC_ENABLE_BIT)) with (Z.shiftl (Z.ones 63) 1).
  change AMD_CPPC_ENABLE_BIT with (2 ^ 0).
  apply Z.bits_inj'. intros i Hi.
  rewrite Z.lor_spec, Z.land_spec, Z.shiftl_spec by lia.
  destruct (Z.eq_dec i 0) as [-> | Hne].
  - rewrite Z.pow2_bits_true by lia. rewrite Bool.orb_true_r.
    destruct (Z.testbit val 0); [reflexivity | now elim Hb].
  - rewrite Z.pow2_bits_false by lia. rewrite Bool.orb_false_r.
    destruct (Z_lt_le_dec i 64) as [Hlt | Hge].
    + rewrite Z.ones_spec_low by lia. apply Bool.andb_true_r.
    + rewrite Z.ones_spec_high by lia. rewrite Bool.andb_false_r.
      rewrite <- (Z.mod_small val (2 ^ 64)) by lia.
      symmetry. apply Z.mod_pow2_bits_high. lia.
Qed.

Lemma wrmsr_disable hw val :
  wrmsr (wrmsr hw MSR_AMD_CPPC_REQ 0) MSR_AMD_CPPC_ENABLE val =
  if enable_latches hw
  then mk_machine (msr_cap1 hw) val 0 true
  else mk_machine (msr_cap1 hw) (msr_enable hw) 0 false.
Proof. destruct hw as [c e q l]. destruct l; reflexivity. Qed.

(** X13: on an enabled state that satisfies the invariant (enable register
    within 64 bits), suspend returns 0, clears the flag and zeroes the
    request register, and the resume that follows restores the softc and
    the MSR file exactly as they were before the suspend. *)
Theorem suspend_resume_identity (sc : amd_cppc_softc) (hw : machine) :
  driver_inv sc hw -> cppc_enabled sc = true -> is_uint64 (msr_enable hw) ->
  let r1 := amd_cppc_suspend sc hw in
  fst (fst r1) = 0 /\
  cppc_enabled (snd (fst r1)) = false /\
  msr_req (snd r1) = 0 /\
  amd_cppc_resume (snd (fst r1)) (snd r1) = (0, sc, hw).
Proof.
  intros I E Hu r1. subst r1.
  pose proof (inv_disable sc hw I) as I1.
  unfold amd_cppc_suspend, bind, ret.
  rewrite (disable_run sc hw E) in *. cbn [fst snd] in *.
  split; [reflexivity |]. split; [reflexivity |].
  split; [apply wrmsr_enable_req |].
  rewrite (resume_run_inv _ _ I1).
  destruct (inv_on _ _ I E) as [Hbit Hreq].
  f_equal; [f_equal |].
  - destruct sc. simpl in E. subst. reflexivity.
  - rewrite wrmsr_disable. destruct hw as [c e q l].
    cbn [msr_cap1 msr_enable msr_req enable_latches] in *.
    destruct l; cbn [msr_cap1 msr_enable msr_req enable_latches].
    + rewrite (lor_land_mask e Hu Hbit), Hreq. reflexivity.
    + rewrite (lor_bit0_same e Hbit), Hreq. reflexivity.
Qed.

Lemma suspend_resume_identity_witness :
  driver_inv sc_ref hw_attached /\ cppc_enabled sc_ref = true /\
  is_uint64 (msr_enable hw_attached) /\
  amd_cppc_resume (snd (fst (amd_cppc_suspend sc_ref hw_attached)))
                  (snd (amd_cppc_suspend sc_ref hw_attached))
  = (0, sc_ref, hw_attached).
Proof.
  assert (E : cppc_enabled sc_ref = true) by reflexivity.
  assert (Hu : is_uint64 (msr_enable hw_attached))
    by (unfold is_uint64; simpl; lia).
  split; [exact inv_ref |]. split; [exact E |]. split; [exact Hu |].
  exact (proj2 (proj2 (proj2
    (suspend_resume_identity sc_ref hw_attached inv_ref E Hu)))).
Defined.

(** ** More on the settings enumerator *)

Lemma chain_strict l : chain Z.gt l <-> strictly_descending l.
Proof.
  induction l as [| a l IH]; [cbn; tauto |].
  destruct l as [| b t]; [cbn; tauto |].
  change (chain Z.gt (a :: b :: t)) with (a > b /\ chain Z.gt (b :: t)).
  change (strictly_descending (a :: b :: t))
    with (a > b /\ strictly_descending (b :: t)).
  tauto.
Qed.

Lemma chain_map (R S : Z -> Z -> Prop) (P : Z -> Prop) (g : Z -> Z) l :
  (forall a b, P a -> P b -> R a b -> S (g a) (g b)) ->
  Forall P l -> chain R l -> chain S (map g l).
Proof.
  intros Hg. induction l as [| a l IH]; intros HP HR; [exact I |].
  destruct l as [| b t]; [exact I |].
  inversion HP as [| ? ? Pa HP']. subst. inversion HP' as [| ? ? Pb HP'']. subst.
  destruct HR as [Hab HR].
  change (S (g a) (g b) /\ chain S (map g (b :: t))).
  split; [now apply Hg | now apply IH].
Qed.

Lemma chain_app_last (R : Z -> Z -> Prop) l y :
  chain R l -> Forall (fun x => R x y) l -> chain R (l ++ [y]).
Proof.
  induction l as [| a l IH]; intros HR HF; [exact I |].
  inversion HF as [| ? ? Ha HF']. subst.
  destruct l as [| b t].
  - cbn. split; [assumption | exact I].
  - destruct HR as [Hab HR].
    change (R a b /\ chain R ((b :: t) ++ [y])).
    split; [assumption | now apply IH].
Qed.

(** The levels visited lie above [lowest], at or below the start, and each
    is strictly above the next. *)
Lemma loop_perfs_levels lowest count step :
  1 <= step ->
  forall fuel perf n,
    Forall (fun p => lowest < p <= perf) (loop_perfs fuel lowest count step perf n)
    /\ chain Z.gt (loop_perfs fuel lowest count step perf n).
Proof.
  intros Hs. induction fuel as [| fuel IH]; intros perf n; cbn [loop_perfs].
  - split; [constructor | exact I].
  - destruct (Z.gtb_spec perf lowest); [| split; [constructor | exact I]].
    destruct ((n >=? count) || (n >=? AMD_CPPC_MAX_SETTINGS));
      [split; [constructor | exact I] |].
    destruct (IH (perf - step) (n + 1)) as [HF HC]. split.
    + constructor; [lia |].
      eapply Forall_impl; [| exact HF]. cbn. intros; lia.
    + destruct (loop_perfs fuel lowest count step (perf - step) (n + 1))
        as [| b t] eqn:El; [exact I |].
      split; [| exact HC]. inversion HF. subst. lia.
Qed.

(** The number of levels visited, whatever the budget. *)
Lemma loop_perfs_steps lowest count step :
  1 <= step ->
  forall fuel perf n,
    Z.of_nat (length (loop_perfs fuel lowest count step perf n)) * step
      < Z.max 0 (perf - lowest) + step.
Proof.
  intros Hs. induction fuel as [| fuel IH]; intros perf n;
    cbn [loop_perfs length]; [lia |].
  destruct (Z.gtb_spec perf lowest); [| cbn [length Z.of_nat]; lia].
  destruct ((n >=? count) || (n >=? AMD_CPPC_MAX_SETTINGS));
    [cbn [length Z.of_nat]; lia |].
  cbn [length]. rewrite Nat2Z.inj_succ.
  specialize (IH (perf - step) (n + 1)).
  set (L := Z.of_nat (length (loop_perfs fuel lowest count step
                                (perf - step) (n + 1)))) in *.
  assert (HL : 0 <= L) by (subst L; lia).
  rewrite Z.max_r by lia.
  destruct (Z.max_spec 0 (perf - step - lowest)) as [[? Hm] | [? Hm]];
    rewrite Hm in IH.
  - nia.
  - assert (L = 0) by nia. subst L. nia.
Qed.

(** The entries of [amd_cppc_settings] are the settings of a strictly
    decreasing list of levels between the two bounds. *)
Lemma settings_levels sc d count :
  softc_wf sc -> cppc_enabled sc = true ->
  exists ps,
    amd_cppc_settings sc d count
      = (0, map (settings_entry sc d) ps, Z.of_nat (length ps)) /\
    Forall (fun p => lowest_perf sc <= p <= highest_perf sc) ps /\
    chain Z.gt ps /\
    (0 < highest_perf sc - lowest_perf sc -> 1 <= count ->
     hd 0 ps = highest_perf sc).
Proof.
  intros Hwf E.
  destruct (Z_lt_le_dec 0 (highest_perf sc - lowest_perf sc)) as [Hr | Hr].
  2:{ exists []. unfold amd_cppc_settings. rewrite E. cbn [negb].
      destruct (Z.leb_spec (highest_perf sc - lowest_perf sc) 0); [| lia].
      repeat split; try constructor. lia. }
  rewrite (settings_run sc d count E Hr). cbv zeta.
  assert (Hs : 1 <= settings_step (highest_perf sc - lowest_perf sc)).
  { unfold settings_step.
    destruct (Z.ltb_spec (Z.quot (highest_perf sc - lowest_perf sc) 30) 1); lia. }
  set (ps := loop_perfs _ _ _ _ _ _).
  destruct (loop_perfs_levels (lowest_perf sc) count
              (settings_step (highest_perf sc - lowest_perf sc)) Hs
              (Z.to_nat (highest_perf sc - lowest_perf sc))
              (highest_perf sc) 0) as [HF HC]. fold ps in HF, HC.
  pose proof Hwf as W. destruct W. unfold_ranges.
  assert (Hmap : map (fun p => settings_entry sc d (to_uint8 p)) ps
                 = map (settings_entry sc d) ps).
  { apply map_ext_in. intros p Hin. rewrite Forall_forall in HF.
    specialize (HF p Hin). rewrite to_uint8_small; [reflexivity |].
    unfold is_uint8. lia. }
  assert (Hhd : 1 <= count -> hd 0 ps = highest_perf sc).
  { intros Hc. subst ps.
    destruct (Z.to_nat (highest_perf sc - lowest_perf sc)) eqn:Ef; [lia |].
    cbn [loop_perfs].
    destruct (Z.gtb_spec (highest_perf sc) (lowest_perf sc)); [| lia].
    destruct (Z.geb_spec 0 count); [lia |].
    reflexivity. }
  rewrite Hmap.
  destruct ((Z.of_nat (length ps) <? count)
            && (Z.of_nat (length ps) <? AMD_CPPC_MAX_SETTINGS)).
  - exists (ps ++ [lowest_perf sc]).
    rewrite map_app, length_app, Nat2Z.inj_add. cbn [map length].
    split; [reflexivity |]. split; [| split].
    + apply Forall_app. split.
      * eapply Forall_impl; [| exact HF]. cbn. intros; lia.
      * constructor; [lia | constructor].
    + apply chain_app_last; [exact HC |].
      eapply Forall_impl; [| exact HF]. cbn. intros; lia.
    + intros _ Hc. specialize (Hhd Hc).
      destruct ps as [| a t]; [| exact Hhd]. cbn in Hhd. lia.
  - exists ps. split; [reflexivity |]. split; [| split].
    + eapply Forall_impl; [| exact HF]. cbn. intros; lia.
    + exact HC.
    + intros _ Hc. exact (Hhd Hc).
Qed.

Lemma perf_to_mhz_mono sc p q :
  softc_wf sc -> nominal_perf sc <> 0 -> 0 <= base_freq_mhz sc ->
  base_freq_mhz sc * highest_perf sc / nominal_perf sc <= INT_MAX ->
  0 <= p -> p <= q -> q <= highest_perf sc ->
  amd_cppc_perf_to_mhz sc p <= amd_cppc_perf_to_mhz sc q /\
  (nominal_perf sc <= base_freq_mhz sc -> p < q ->
   amd_cppc_perf_to_mhz sc p < amd_cppc_perf_to_mhz sc q).
Proof.
  intros Hwf Hn Hb Hfit Hp Hpq Hq.
  pose proof Hwf as W. destruct W. unfold_ranges.
  assert (Hnpos : 0 < nominal_perf sc) by lia.
  pose proof (div_bounds (base_freq_mhz sc * highest_perf sc)
                (nominal_perf sc) Hnpos) as Dh.
  pose proof (div_bounds (base_freq_mhz sc * p) (nominal_perf sc) Hnpos) as Dp.
  pose proof (div_bounds (base_freq_mhz sc * q) (nominal_perf sc) Hnpos) as Dq.
  assert (Ep : amd_cppc_perf_to_mhz sc p
               = base_freq_mhz sc * p / nominal_perf sc)
    by (apply perf_to_mhz_exact; try assumption; unfold_ranges; try lia; nia).
  assert (Eq : amd_cppc_perf_to_mhz sc q
               = base_freq_mhz sc * q / nominal_perf sc)
    by (apply perf_to_mhz_exact; try assumption; unfold_ranges; try lia; nia).
  rewrite Ep, Eq. split; [nia | intros; nia].
Qed.

(** X14: the enumerator on a disabled instance fails with ENXIO, writes no
    entry and leaves the count alone.  On an enabled instance it succeeds;
    the returned count is the number of entries written, between 0 and 64
    and never above a non-negative budget; a budget of 0 or less, or
    highest_perf <= lowest_perf, gives no entry; every entry has unknown
    volts and power, latency 1 and the device of the call. *)
Theorem settings_edges (sc : amd_cppc_softc) (d count : Z) :
  (cppc_enabled sc = false -> amd_cppc_settings sc d count = (ENXIO, [], count)) /\
  (cppc_enabled sc = true ->
   let r := amd_cppc_settings sc d count in
   fst (fst r) = 0 /\
   Z.of_nat (length (snd (fst r))) = snd r /\
   0 <= snd r <= AMD_CPPC_MAX_SETTINGS /\
   (0 <= count -> snd r <= count) /\
   (count <= 0 \/ highest_perf sc <= lowest_perf sc -> r = (0, [], 0)) /\
   Forall (fun s => volts s = CPUFREQ_VAL_UNKNOWN /\
                    power s = CPUFREQ_VAL_UNKNOWN /\
                    lat s = 1 /\ cf_dev s = d) (snd (fst r))).
Proof.
  split.
  { intros E. unfold amd_cppc_settings. rewrite E. reflexivity. }
  intros E r. subst r.
  destruct (settings_count_bound sc d count) as [Hok Herr]. cbv zeta in *.
  assert (H0 : fst (fst (amd_cppc_settings sc d count)) = 0).
  { destruct (Z.eq_dec (fst (fst (amd_cppc_settings sc d count))) 0) as [H | H];
      [exact H |].
    destruct (Herr H) as [Hd _]. rewrite E in Hd. discriminate. }
  destruct (Hok H0) as (Hlen & Hcap & Hbud).
  split; [exact H0 |]. split; [exact Hlen |]. split; [lia |].
  split; [exact Hbud |].
  destruct (Z_lt_le_dec 0 (highest_perf sc - lowest_perf sc)) as [Hr | Hr].
  2:{ assert (Hnil : amd_cppc_settings sc d count = (0, [], 0)).
      { unfold amd_cppc_settings. rewrite E. cbn [negb].
        destruct (Z.leb_spec (highest_perf sc - lowest_perf sc) 0);
          [reflexivity | lia]. }
      rewrite Hnil. cbn [fst snd]. split; [reflexivity | constructor]. }
  rewrite (settings_run sc d count E Hr) in *. cbv zeta in *.
  set (ps := loop_perfs _ _ _ _ _ _) in *.
  assert (Hfix : forall l,
            Forall (fun s => volts s = CPUFREQ_VAL_UNKNOWN /\
                             power s = CPUFREQ_VAL_UNKNOWN /\
                             lat s = 1 /\ cf_dev s = d)
                   (map (fun p => settings_entry sc d (to_uint8 p)) l)).
  { intros l. apply Forall_forall. intros s Hin.
    apply in_map_iff in Hin. destruct Hin as (p & <- & _).
    repeat split; reflexivity. }
  split.
  - intros [Hc | Hc]; [| lia].
    pose proof (loop_perfs_length
                  (Z.to_nat (highest_perf sc - lowest_perf sc))
                  (lowest_perf sc) count
                  (settings_step (highest_perf sc - lowest_perf sc))
                  (highest_perf sc) 0 ltac:(lia)) as Hl.
    fold ps in Hl. unfold AMD_CPPC_MAX_SETTINGS in Hl.
    assert (Hps : ps = []) by (apply length_zero_iff_nil; lia).
    rewrite Hps. cbn [length Z.of_nat].
    destruct (Z.ltb_spec 0 count); [lia | reflexivity].
  - destruct (_ && _); cbn [fst snd]; [| apply Hfix].
    apply Forall_app. split; [apply Hfix |].
    constructor; [repeat split; reflexivity | constructor].
Qed.

Lemma settings_edges_witness :
  cppc_enabled sc_ref = true /\ 0 <= 5 /\
  snd (amd_cppc_settings sc_ref 7 5) <= 5.
Proof.
  assert (E : cppc_enabled sc_ref = true) by reflexivity.
  assert (H : 0 <= 5) by lia.
  split; [exact E |]. split; [exact H |].
  exact (proj1 (proj2 (proj2 (proj2
    (proj2 (settings_edges sc_ref 7 5) E)))) H).
Defined.

(** X15: with a non-zero nominal level, a non-negative anchor and MHz
    values that fit an int, the frequencies returned by the enumerator are
    in descending order for every budget, each lies between the MHz of
    lowest_perf and the MHz of highest_perf, and the first one is the MHz
    of highest_perf; when nominal_perf <= base_freq_mhz (a level spans at
    least 1 MHz) the order is strict, so no frequency is listed twice. *)
Theorem settings_descending (sc : amd_cppc_softc) (d count : Z) :
  softc_wf sc -> cppc_enabled sc = true ->
  nominal_perf sc <> 0 -> 0 <= base_freq_mhz sc ->
  base_freq_mhz sc * highest_perf sc / nominal_perf sc <= INT_MAX ->
  let fs := map freq (snd (fst (amd_cppc_settings sc d count))) in
  descending fs /\
  Forall (fun f => amd_cppc_perf_to_mhz sc (lowest_perf sc) <= f
                     <= amd_cppc_perf_to_mhz sc (highest_perf sc)) fs /\
  (lowest_perf sc < highest_perf sc -> 1 <= count ->
   hd 0 fs = amd_cppc_perf_to_mhz sc (highest_perf sc)) /\
  (nominal_perf sc <= base_freq_mhz sc -> strictly_descending fs).
Proof.
  intros Hwf E Hn Hb Hfit fs. subst fs.
  destruct (settings_levels sc d count Hwf E) as (ps & Hrun & HF & HC & Hhd).
  rewrite Hrun. cbn [fst snd]. rewrite map_map.
  change (map (fun x => freq (settings_entry sc d x)) ps)
    with (map (amd_cppc_perf_to_mhz sc) ps).
  pose proof Hwf as W. destruct W. unfold_ranges.
  split; [| split; [| split]].
  - unfold descending.
    apply (chain_map Z.gt Z.ge
             (fun p => lowest_perf sc <= p <= highest_perf sc)); try assumption.
    intros a b Ha Hb' Hab.
    pose proof (perf_to_mhz_mono sc b a Hwf Hn Hb Hfit ltac:(lia) ltac:(lia)
                  ltac:(lia)) as [Hle _]. lia.
  - apply Forall_forall. intros f Hin. apply in_map_iff in Hin.
    destruct Hin as (p & <- & Hp). rewrite Forall_forall in HF.
    specialize (HF p Hp). cbn in HF.
    pose proof (perf_to_mhz_mono sc (lowest_perf sc) p Hwf Hn Hb Hfit
                  ltac:(lia) ltac:(lia) ltac:(lia)) as [H1 _].
    pose proof (perf_to_mhz_mono sc p (highest_perf sc) Hwf Hn Hb Hfit
                  ltac:(lia) ltac:(lia) ltac:(lia)) as [H2 _].
    lia.
  - intros Hr Hc. specialize (Hhd ltac:(lia) Hc).
    destruct ps as [| a t]; cbn in *; [lia | now rewrite Hhd].
  - intros Hnb. apply chain_strict.
    apply (chain_map Z.gt Z.gt
             (fun p => lowest_perf sc <= p <= highest_perf sc)); try assumption.
    intros a b Ha Hb' Hab.
    pose proof (perf_to_mhz_mono sc b a Hwf Hn Hb Hfit ltac:(lia) ltac:(lia)
                  ltac:(lia)) as [_ Hlt].
    specialize (Hlt Hnb ltac:(lia)). lia.
Qed.

Lemma settings_descending_witness :
  softc_wf sc_thirds /\ cppc_enabled sc_thirds = true /\
  nominal_perf sc_thirds <> 0 /\ 0 <= base_freq_mhz sc_thirds /\
  base_freq_mhz sc_thirds * highest_perf sc_thirds / nominal_perf sc_thirds
    <= INT_MAX /\
  map freq (snd (fst (amd_cppc_settings sc_thirds 7 64)))
    = [1666; 1333; 1000; 666; 333] /\
  descending (map freq (snd (fst (amd_cppc_settings sc_thirds 7 64)))).
Proof.
  assert (Hwf : softc_wf sc_thirds)
    by (constructor; unfold is_uint8, is_int; simpl; lia).
  assert (E : cppc_enabled sc_thirds = true) by reflexivity.
  assert (Hn : nominal_perf sc_thirds <> 0) by (simpl; lia).
  assert (Hb : 0 <= base_freq_mhz sc_thirds) by (simpl; lia).
  assert (Hfit : base_freq_mhz sc_thirds * highest_perf sc_thirds
                 / nominal_perf sc_thirds <= INT_MAX)
    by (vm_compute; discriminate).
  split; [exact Hwf |]. split; [exact E |]. split; [exact Hn |].
  split; [exact Hb |]. split; [exact Hfit |]. split; [reflexivity |].
  exact (proj1 (settings_descending sc_thirds 7 64 Hwf E Hn Hb Hfit)).
Defined.

(** The walk from [highest_perf] down to [lowest_perf] takes at most 59
    steps, whatever the two byte-sized bounds and the budget. *)
Lemma loop_perfs_at_most_59 hi lo count :
  is_uint8 hi -> is_uint8 lo -> 0 < hi - lo ->
  Z.of_nat (length (loop_perfs (Z.to_nat (hi - lo)) lo count
                      (settings_step (hi - lo)) hi 0)) <= 59.
Proof.
  unfold is_uint8. intros Hhi Hlo Hr.
  assert (Hs : 1 <= settings_step (hi - lo)).
  { unfold settings_step. destruct (Z.ltb_spec (Z.quot (hi - lo) 30) 1); lia. }
  pose proof (loop_perfs_steps lo count (settings_step (hi - lo)) Hs
                (Z.to_nat (hi - lo)) hi 0) as Hlen.
  rewrite Z.max_r in Hlen by lia.
  set (len := Z.of_nat (length _)) in *.
  unfold settings_step in *. rewrite Z.quot_div_nonneg in * by lia.
  pose proof (div_bounds (hi - lo) 30 ltac:(lia)) as D.
  destruct (Z.ltb_spec ((hi - lo) / 30) 1); nia.
Qed.

(** X16: on an enabled instance with byte-sized bounds and
    lowest_perf < highest_perf, every budget of 60 or more gives the same
    list as a budget of 60: at most 60 entries, so the cap of 64 never cuts
    the list, and the final entry is the MHz of lowest_perf. *)
Theorem settings_complete (sc : amd_cppc_softc) (d count : Z) :
  softc_wf sc -> cppc_enabled sc = true ->
  lowest_perf sc < highest_perf sc -> 60 <= count ->
  let r := amd_cppc_settings sc d count in
  r = amd_cppc_settings sc d 60 /\
  fst (fst r) = 0 /\
  1 <= snd r <= 60 /\
  last (map freq (snd (fst r))) 0 = amd_cppc_perf_to_mhz sc (lowest_perf sc).
Proof.
  intros Hwf E Hr Hc r. subst r.
  pose proof Hwf as W. destruct W.
  assert (Hr' : 0 < highest_perf sc - lowest_perf sc) by lia.
  assert (H59 : forall c,
            Z.of_nat (length (loop_perfs
                                (Z.to_nat (highest_perf sc - lowest_perf sc))
                                (lowest_perf sc) c
                                (settings_step (highest_perf sc - lowest_perf sc))
                                (highest_perf sc) 0)) <= 59)
    by (intros c; now apply loop_perfs_at_most_59).
  assert (Hrun : forall c, 60 <= c ->
            amd_cppc_settings sc d c =
            (0, map (fun p => settings_entry sc d (to_uint8 p))
                  (loop_perfs (Z.to_nat (highest_perf sc - lowest_perf sc))
                     (lowest_perf sc) 60
                     (settings_step (highest_perf sc - lowest_perf sc))
                     (highest_perf sc) 0)
                ++ [settings_entry sc d (lowest_perf sc)],
             Z.of_nat (length
               (loop_perfs (Z.to_nat (highest_perf sc - lowest_perf sc))
                  (lowest_perf sc) 60
                  (settings_step (highest_perf sc - lowest_perf sc))
                  (highest_perf sc) 0)) + 1)).
  { intros c Hc'. rewrite (settings_run sc d c E Hr'). cbv zeta.
    rewrite (loop_perfs_budget _ _ _ 60 c Hc' (highest_perf sc) 0)
      by (specialize (H59 60); lia).
    specialize (H59 60). unfold AMD_CPPC_MAX_SETTINGS.
    destruct (Z.ltb_spec (Z.of_nat (length (loop_perfs
                (Z.to_nat (highest_perf sc - lowest_perf sc))
                (lowest_perf sc) 60
                (settings_step (highest_perf sc - lowest_perf sc))
                (highest_perf sc) 0))) c); [| lia].
    destruct (Z.ltb_spec (Z.of_nat (length (loop_perfs
                (Z.to_nat (highest_perf sc - lowest_perf sc))
                (lowest_perf sc) 60
                (settings_step (highest_perf sc - lowest_perf sc))
                (highest_perf sc) 0))) 64); [| lia].
    reflexivity. }
  rewrite (Hrun count Hc), (Hrun 60 ltac:(lia)). cbn [fst snd].
  specialize (H59 60).
  split; [reflexivity |]. split; [reflexivity |]. split; [lia |].
  rewrite map_app. cbn [map]. apply last_last.
Qed.

Lemma settings_complete_witness :
  softc_wf sc_ref /\ cppc_enabled sc_ref = true /\
  lowest_perf sc_ref < highest_perf sc_ref /\ 60 <= 256 /\
  amd_cppc_settings sc_ref 7 256 = amd_cppc_settings sc_ref 7 60 /\
  snd (amd_cppc_settings sc_ref 7 256) = 33.
Proof.
  assert (E : cppc_enabled sc_ref = true) by reflexivity.
  assert (Hr : lowest_perf sc_ref < highest_perf sc_ref) by (simpl; lia).
  assert (Hc : 60 <= 256) by lia.
  split; [exact sc_ref_wf |]. split; [exact E |]. split; [exact Hr |].
  split; [exact Hc |]. split; [| reflexivity].
  exact (proj1 (settings_complete sc_ref 7 256 sc_ref_wf E Hr Hc)).
Defined.

(** X17: a frequency offered by the enumerator, passed to set_target and
    read back with get_current, comes back as that frequency or as the
    frequency of the level just below: with validated capabilities, a
    positive anchor and MHz values that fit an int, the frequency read back
    is at most the one set and at most one level's MHz span below it, and
    it is exactly the one set when nominal_perf divides base_freq_mhz. *)
Theorem settings_set_get (sc : amd_cppc_softc) (d count : Z) (hw : machine)
    (cf0 s : cf_setting) :
  softc_wf sc -> caps_valid sc -> cppc_enabled sc = true ->
  0 < base_freq_mhz sc ->
  base_freq_mhz sc * highest_perf sc / nominal_perf sc <= INT_MAX ->
  In s (snd (fst (amd_cppc_settings sc d count))) ->
  let sc1 := snd (fst (amd_cppc_set sc s hw)) in
  let r := amd_cppc_get sc1 d cf0 in
  fst r = 0 /\
  freq (snd r) <= freq s /\
  freq s - freq (snd r) <= mhz_per_level sc /\
  (base_freq_mhz sc mod nominal_perf sc = 0 -> freq (snd r) = freq s).
Proof.
  intros Hwf Hv E Hb Hfit Hin sc1 r. subst r sc1.
  destruct (settings_levels sc d count Hwf E) as (ps & Hrun & HF & _).
  rewrite Hrun in Hin. cbn [fst snd] in Hin.
  apply in_map_iff in Hin. destruct Hin as (p & <- & Hp).
  rewrite Forall_forall in HF. specialize (HF p Hp). cbn in HF.
  rewrite (set_enabled sc _ hw E). cbn [fst snd].
  unfold amd_cppc_get. cbn [cppc_enabled set_req_perf negb fst snd freq
                            req_max_perf settings_entry].
  rewrite E. cbn [negb fst snd freq].
  change (amd_cppc_perf_to_mhz
            (set_req_perf sc (amd_cppc_mhz_to_perf sc (amd_cppc_perf_to_mhz sc p))
               (lowest_perf sc) 0)
            (amd_cppc_mhz_to_perf sc (amd_cppc_perf_to_mhz sc p)))
    with (amd_cppc_perf_to_mhz sc
            (amd_cppc_mhz_to_perf sc (amd_cppc_perf_to_mhz sc p))).
  destruct Hv as (Hh & Hn & Hl & Hord).
  pose proof Hwf as W. destruct W. unfold_ranges.
  pose proof (perf_to_mhz_mono sc (lowest_perf sc) p Hwf Hn ltac:(lia) Hfit
                ltac:(lia) ltac:(lia) ltac:(lia)) as [H1 _].
  pose proof (perf_to_mhz_mono sc p (highest_perf sc) Hwf Hn ltac:(lia) Hfit
                ltac:(lia) ltac:(lia) ltac:(lia)) as [H2 _].
  pose proof (round_trip_below sc Hwf (conj Hh (conj Hn (conj Hl Hord))) Hb
                (amd_cppc_perf_to_mhz sc p) (conj H1 H2)) as [R1 R2].
  split; [reflexivity |]. split; [exact R1 |]. split; [exact R2 |].
  intros Hdiv.
  rewrite (level_round_trip_exact sc p Hwf
             (conj Hh (conj Hn (conj Hl Hord))) Hb Hfit HF Hdiv).
  reflexivity.
Qed.

Lemma settings_set_get_witness :
  softc_wf sc_ref /\ caps_valid sc_ref /\ cppc_enabled sc_ref = true /\
  0 < base_freq_mhz sc_ref /\
  base_freq_mhz sc_ref * highest_perf sc_ref / nominal_perf sc_ref <= INT_MAX /\
  In (settings_entry sc_ref 7 180) (snd (fst (amd_cppc_settings sc_ref 7 64))) /\
  freq (snd (amd_cppc_get
               (snd (fst (amd_cppc_set sc_ref (settings_entry sc_ref 7 180)
                            hw_attached))) 7 (cf_of_mhz 0)))
    <= freq (settings_entry sc_ref 7 180).
Proof.
  assert (E : cppc_enabled sc_ref = true) by reflexivity.
  assert (Hb : 0 < base_freq_mhz sc_ref) by (simpl; lia).
  assert (Hfit : base_freq_mhz sc_ref * highest_perf sc_ref
                 / nominal_perf sc_ref <= INT_MAX)
    by (vm_compute; discriminate).
  assert (Hin : In (settings_entry sc_ref 7 180)
                   (snd (fst (amd_cppc_settings sc_ref 7 64))))
    by (left; reflexivity).
  split; [exact sc_ref_wf |]. split; [exact sc_ref_valid |].
  split; [exact E |]. split; [exact Hb |]. split; [exact Hfit |].
  split; [exact Hin |].
  exact (proj1 (proj2 (settings_set_get sc_ref 7 64 hw_attached (cf_of_mhz 0)
                         (settings_entry sc_ref 7 180)
                         sc_ref_wf sc_ref_valid E Hb Hfit Hin))).
Defined.

(** X18: in an enabled state that satisfies the invariant of an attached
    device (non-negative anchor, MHz values that fit an int), get_current
    succeeds and reports a frequency between the MHz of lowest_perf and the
    MHz of highest_perf, the ends of the list the enumerator offers; volts,
    power and latency are reported as unknown. *)
Theorem get_within_range (sc : amd_cppc_softc) (hw : machine) (d : Z)
    (cf0 : cf_setting) :
  driver_inv sc hw -> cppc_enabled sc = true ->
  0 <= base_freq_mhz sc ->
  base_freq_mhz sc * highest_perf sc / nominal_perf sc <= INT_MAX ->
  let r := amd_cppc_get sc d cf0 in
  fst r = 0 /\
  amd_cppc_perf_to_mhz sc (lowest_perf sc) <= freq (snd r)
    <= amd_cppc_perf_to_mhz sc (highest_perf sc) /\
  (volts (snd r), power (snd r), lat (snd r), cf_dev (snd r))
    = (CPUFREQ_VAL_UNKNOWN, CPUFREQ_VAL_UNKNOWN, CPUFREQ_VAL_UNKNOWN, d).
Proof.
  intros I E Hb Hfit r. subst r. unfold amd_cppc_get. rewrite E.
  cbn [negb fst snd freq volts power lat cf_dev].
  pose proof (inv_wf _ _ I) as Hwf. pose proof (inv_max _ _ I) as Hmax.
  destruct (inv_caps _ _ I) as (Hh & Hn & Hl & Hord).
  pose proof Hwf as W. destruct W. unfold_ranges.
  pose proof (perf_to_mhz_mono sc (lowest_perf sc) (req_max_perf sc) Hwf Hn
                Hb Hfit ltac:(lia) ltac:(lia) ltac:(lia)) as [H1 _].
  pose proof (perf_to_mhz_mono sc (req_max_perf sc) (highest_perf sc) Hwf Hn
                Hb Hfit ltac:(lia) ltac:(lia) ltac:(lia)) as [H2 _].
  split; [reflexivity |]. split; [lia | reflexivity].
Qed.

Lemma get_within_range_witness :
  driver_inv sc_ref hw_attached /\ cppc_enabled sc_ref = true /\
  0 <= base_freq_mhz sc_ref /\
  base_freq_mhz sc_ref * highest_perf sc_ref / nominal_perf sc_ref <= INT_MAX /\
  amd_cppc_perf_to_mhz sc_ref (lowest_perf sc_ref)
    <= freq (snd (amd_cppc_get sc_ref 7 (cf_of_mhz 0)))
    <= amd_cppc_perf_to_mhz sc_ref (highest_perf sc_ref).
Proof.
  assert (E : cppc_enabled sc_ref = true) by reflexivity.
  assert (Hb : 0 <= base_freq_mhz sc_ref) by (simpl; lia).
  assert (Hfit : base_freq_mhz sc_ref * highest_perf sc_ref
                 / nominal_perf sc_ref <= INT_MAX)
    by (vm_compute; discriminate).
  split; [exact inv_ref |]. split; [exact E |]. split; [exact Hb |].
  split; [exact Hfit |].
  exact (proj1 (proj2 (get_within_range sc_ref hw_attached 7 (cf_of_mhz 0)
                         inv_ref E Hb Hfit))).
Defined.
